(** * simple-calc: the tokenize -> toPostfix -> evaluatePostfix pipeline

    A shallow embedding of [src/main.cpp] (the calculator that traces its
    evaluation on [std::cout]) and of [src/clean/main.cpp] (the same calculator
    without the tracing), followed by the properties of the pipeline.

    - C++ [double] is IEEE binary64: the primitive type [float], whose
      [+ - * /], negation and [==] are the machine operations.
    - [std::string] is [string]; the cursor [i] of the lexer is kept together
      with the unread suffix [expr.substr(i)].
    - [std::vector<Token>] is a list in insertion order ([push_back] appends),
      [std::stack] is a list whose head is [top()].
    - [throw] is the [Throw] result; the message of the exception is kept.
    - [std::stod] and [pow] belong to the C++ library, not to the program:
      they are the two fields of the interface [CxxLib]. *)

From Stdlib Require Import List Ascii String ZArith NArith Bool Lia Permutation.
From Stdlib Require Import Floats.
Import ListNotations.

Local Open Scope string_scope.
Local Open Scope list_scope.

(** ** Exceptions and results *)

Inductive exception : Type :=
| runtime_error (what : string)   (* thrown by the calculator itself *)
| out_of_range (what : string).   (* thrown by std::stod on ERANGE *)

Inductive result (A : Type) : Type :=
| Ok (a : A)
| Throw (e : exception).
Arguments Ok {A} a.
Arguments Throw {A} e.

Definition bind {A B : Type} (m : result A) (k : A -> result B) : result B :=
  match m with
  | Ok a => k a
  | Throw e => Throw e
  end.

Declare Scope result_scope.
Delimit Scope result_scope with result.
Notation "x <- m ;; k" := (bind m (fun x => k))
  (at level 61, m at next level, right associativity) : result_scope.
Notation "' p <- m ;; k" := (bind m (fun x => match x with p => k end))
  (at level 61, p pattern, m at next level, right associativity) : result_scope.

(** ** struct Token *)

Inductive TokenType : Type := NUMBER | OPERATOR | PAREN_LEFT | PAREN_RIGHT.

Definition TokenType_eqb (a b : TokenType) : bool :=
  match a, b with
  | NUMBER, NUMBER | OPERATOR, OPERATOR
  | PAREN_LEFT, PAREN_LEFT | PAREN_RIGHT, PAREN_RIGHT => true
  | _, _ => false
  end.

Record Token : Type := mkToken {
  type : TokenType;
  value : float;
  op : ascii
}.

(** The [0] that initialises a [char] field. *)
Definition NUL : ascii := "000"%char.

(** [v.back()] of a vector; [None] on an empty vector, where the program never
    calls it (the call is guarded by [tokens.empty() ||]). *)
Fixpoint back {A : Type} (v : list A) : option A :=
  match v with
  | [] => None
  | [x] => Some x
  | _ :: v' => back v'
  end.

Definition empty {A : Type} (v : list A) : bool :=
  match v with [] => true | _ :: _ => false end.

Definition back_has_type (v : list Token) (ty : TokenType) : bool :=
  match back v with
  | Some t => TokenType_eqb (type t) ty
  | None => false
  end.

(** ** <cctype> in the C locale (the program never calls setlocale)

    A byte above 127 is neither a digit nor white space. *)

Definition isdigit (c : ascii) : bool :=
  let n := N_of_ascii c in ((48 <=? n) && (n <=? 57))%N.

Definition isspace (c : ascii) : bool :=
  let n := N_of_ascii c in ((n =? 32) || ((9 <=? n) && (n <=? 13)))%N.

(** ** The C++ library functions the calculator calls *)

Class CxxLib : Type := {
  (** [std::stod(numStr)]: the [double] nearest to the decimal numeral, or
      [std::out_of_range] when the conversion reports ERANGE. *)
  stod : string -> result float;
  (** [pow(x, y)] of <cmath>. *)
  pow : float -> float -> float
}.

(** [s += c] *)
Definition push_char (s : string) (c : ascii) : string := s ++ String c "".

(** [std::cout] as the sequence of items inserted with [<<]. *)
Inductive out_item : Type :=
| Text (s : string)
| Dbl (v : float)
| Chr (c : ascii).

Definition ostream : Type := list out_item.

Definition nl : string := String "010"%char "".

(** Code that writes to [std::cout] and may throw: the stream is threaded
    through, and what was written before a [throw] stays written. *)
Definition IO (A : Type) : Type := ostream -> result A * ostream.

Definition ret {A : Type} (a : A) : IO A := fun out => (Ok a, out).

Definition throw {A : Type} (e : exception) : IO A := fun out => (Throw e, out).

Definition lift {A : Type} (r : result A) : IO A := fun out => (r, out).

Definition print (items : list out_item) : IO unit :=
  fun out => (Ok tt, out ++ items).

Definition bindIO {A B : Type} (m : IO A) (k : A -> IO B) : IO B :=
  fun out =>
    match m out with
    | (Ok a, out') => k a out'
    | (Throw e, out') => (Throw e, out')
    end.

Declare Scope io_scope.
Delimit Scope io_scope with io.
Notation "x <- m ;; k" := (bindIO m (fun x => k))
  (at level 61, m at next level, right associativity) : io_scope.
Notation "m ;; k" := (bindIO m (fun _ => k))
  (at level 61, right associativity) : io_scope.

(** ** class Calculator and struct Application

    The data members of [Calculator], the same in both files. [result] has no
    initialiser: a [Calculator] starts with whatever [double] is there. *)
Module Calculator.
Record t : Type := mk {
  expr : string;
  result : float
}.
End Calculator.

(** An [Application] at work: its calculator and what it has written so far
    on [std::cout] and on [std::cerr]. *)
Record App : Type := mkApp {
  calc : Calculator.t;
  cout : ostream;
  cerr : ostream
}.

(** How one turn of [while (true)] in [run] ends: [continue] or the end of
    the body, [break], or an exception that no handler of [run] catches. *)
Inductive control : Type :=
| Continue
| Break
| Uncaught (e : exception).

(** Where [run] stands once the lines typed so far are used up: inside
    [std::getline] waiting for the next one, returned, or left by an
    exception. *)
Inductive status : Type :=
| Waiting
| Returned
| Terminated (e : exception).

(** [std::cout << ...] of an application. *)
Definition write_cout (items : list out_item) (app : App) : App :=
  mkApp (calc app) (cout app ++ items) (cerr app).

(** * src/main.cpp *)

Module Traced.
Section Calculator.
Context {lib : CxxLib}.

Definition precedence (op : ascii) : Z :=
  match op with
  | "+"%char
  | "-"%char => 1
  | "*"%char
  | "/"%char => 2
  | "u"%char => 3
  | "^"%char => 4
  | "%"%char => 5
  | _ => 0
  end.

Definition applyOperation (x y : float) (op : ascii) : result float :=
  match op with
  | "+"%char => Ok (x + y)%float
  | "-"%char => Ok (x - y)%float
  | "*"%char => Ok (x * y)%float
  | "/"%char =>
      if (y =? 0)%float
      then Throw (runtime_error "Division by zero!")
      else Ok (x / y)%float
  | "^"%char => Ok (pow x y)
  | _ => Throw (runtime_error ("Unknown operator: " ++ String op ""))
  end.

(** The inner [while] of [tokenize]: from the cursor, take characters while
    they are digits or ['.']; returns [numStr], the cursor and the unread
    suffix. *)
Fixpoint scan_number (rest : string) (i : nat) (numStr : string)
    (hasDecimal : bool) : result (string * nat * string) :=
  match rest with
  | String c rest' =>
      if isdigit c || (c =? ".")%char then
        if (c =? ".")%char then
          if hasDecimal
          then Throw (runtime_error "Invalid number: multiple decimal points.")
          else scan_number rest' (S i) (push_char numStr c) true
        else scan_number rest' (S i) (push_char numStr c) hasDecimal
      else Ok (numStr, i, rest)
  | EmptyString => Ok (numStr, i, rest)
  end.

(** [i + 1 < expr.size() && isdigit(expr[i + 1])], on the suffix after [expr[i]]. *)
Definition next_isdigit (rest' : string) : bool :=
  match rest' with
  | String d _ => isdigit d
  | EmptyString => false
  end.

(** The outer [while (i < expr.size())] of [tokenize]; [rest] is
    [expr.substr(i)]. Every iteration moves the cursor forward, so
    [String.length rest] iterations always suffice ([None]: not enough
    [fuel], see [tokenize_loop_fuel]). *)
Fixpoint tokenize_loop (fuel : nat) (rest : string) (i : nat)
    (tokens : list Token) : option (result (list Token)) :=
  match rest with
  | EmptyString => Some (Ok tokens)
  | String c rest' =>
    match fuel with
    | O => None
    | S fuel' =>
      if isspace c then tokenize_loop fuel' rest' (S i) tokens
      else if (c =? "-")%char &&
              ((i =? 0)%nat || empty tokens ||
               back_has_type tokens OPERATOR || back_has_type tokens PAREN_LEFT)
      then tokenize_loop fuel' rest' (S i) (tokens ++ [mkToken OPERATOR 0 "u"])
      else if isdigit c || ((c =? ".")%char && next_isdigit rest') then
        match scan_number rest i "" false with
        | Throw e => Some (Throw e)
        | Ok (numStr, i', rest'') =>
            match stod numStr with
            | Throw e => Some (Throw e)
            | Ok v => tokenize_loop fuel' rest'' i' (tokens ++ [mkToken NUMBER v NUL])
            end
        end
      else if (c =? "+")%char || (c =? "-")%char || (c =? "*")%char ||
              (c =? "/")%char || (c =? "^")%char || (c =? "%")%char
      then tokenize_loop fuel' rest' (S i) (tokens ++ [mkToken OPERATOR 0 c])
      else if (c =? "(")%char
      then tokenize_loop fuel' rest' (S i) (tokens ++ [mkToken PAREN_LEFT 0 NUL])
      else if (c =? ")")%char
      then tokenize_loop fuel' rest' (S i) (tokens ++ [mkToken PAREN_RIGHT 0 NUL])
      else Some (Throw (runtime_error ("Unknown character: " ++ String c "")))
    end
  end.

Definition tokenize (expr : string) : result (list Token) :=
  match tokenize_loop (String.length expr) expr 0 [] with
  | Some r => r
  | None => Ok []   (* never taken: tokenize_loop_fuel *)
  end.

Definition isRightAssociative (op : ascii) : bool :=
  (op =? "^")%char || (op =? "u")%char || (op =? "%")%char.

(** The [while] of the OPERATOR branch of [toPostfix]. *)
Fixpoint pop_operators (tok : Token) (opStack output : list Token)
    : list Token * list Token :=
  match opStack with
  | top :: below =>
      if TokenType_eqb (type top) OPERATOR then
        let topOp := op top in
        if (negb (isRightAssociative (op tok)) &&
            (precedence topOp >=? precedence (op tok))%Z) ||
           (isRightAssociative (op tok) &&
            (precedence topOp >? precedence (op tok))%Z)
        then pop_operators tok below (output ++ [top])
        else (opStack, output)
      else (opStack, output)
  | [] => (opStack, output)
  end.

(** The [while] of the PAREN_RIGHT branch of [toPostfix]. *)
Fixpoint pop_to_paren (opStack output : list Token) : list Token * list Token :=
  match opStack with
  | top :: below =>
      if negb (TokenType_eqb (type top) PAREN_LEFT)
      then pop_to_paren below (output ++ [top])
      else (opStack, output)
  | [] => (opStack, output)
  end.

(** One iteration of [for (const auto &tok : tokens)] in [toPostfix]. *)
Definition toPostfix_body (tok : Token) (opStack output : list Token)
    : result (list Token * list Token) :=
  match type tok with
  | NUMBER => Ok (opStack, output ++ [tok])
  | OPERATOR =>
      let '(opStack', output') := pop_operators tok opStack output in
      Ok (tok :: opStack', output')
  | PAREN_LEFT => Ok (tok :: opStack, output)
  | PAREN_RIGHT =>
      let '(opStack', output') := pop_to_paren opStack output in
      match opStack' with
      | [] => Throw (runtime_error "Mismatched parentheses: unexpected ')'")
      | _ :: below => Ok (below, output')
      end
  end.

Fixpoint toPostfix_loop (tokens opStack output : list Token)
    : result (list Token * list Token) :=
  match tokens with
  | [] => Ok (opStack, output)
  | tok :: tokens' =>
      ('(opStack', output') <- toPostfix_body tok opStack output ;;
       toPostfix_loop tokens' opStack' output')%result
  end.

(** The final [while (!opStack.empty())] of [toPostfix]. *)
Fixpoint drain (opStack output : list Token) : result (list Token) :=
  match opStack with
  | [] => Ok output
  | top :: below =>
      if TokenType_eqb (type top) PAREN_LEFT
      then Throw (runtime_error "Mismatched parentheses: unclosed '('")
      else drain below (output ++ [top])
  end.

Definition toPostfix (tokens : list Token) : result (list Token) :=
  ('(opStack, output) <- toPostfix_loop tokens [] [] ;;
   drain opStack output)%result.

(** One iteration of [for (const auto &tok : postfix)] in [evaluatePostfix];
    [st] is the [std::stack<double>], top first. *)
Definition evaluatePostfix_body (tok : Token) (st : list float)
    : IO (list float) :=
  match type tok with
  | NUMBER =>
      let st := value tok :: st in
      (print [Text (nl ++ "Push "); Dbl (value tok); Text (" onto stack" ++ nl)] ;;
       ret st)%io
  | OPERATOR =>
      if (op tok =? "u")%char then
        match st with
        | [] => throw (runtime_error
                  "Invalid expression: missing operand for unary minus.")
        | x :: st' =>
            let st := (- x)%float :: st' in
            (print [Text "Unary minus applied: -"; Dbl x; Text " -> pushed ";
                    Dbl (- x)%float; Text nl] ;;
             ret st)%io
        end
      else if (op tok =? "%")%char then
        match st with
        | [] => throw (runtime_error
                  "Invalid expression: missing operand for '%'.")
        | x :: st' =>
            let r := (x / 100)%float in
            let st := r :: st' in
            (print [Text "Percent applied: "; Dbl x; Text "% -> pushed ";
                    Dbl r; Text nl] ;;
             ret st)%io
        end
      else
        match st with
        | y :: x :: st' =>
            (r <- lift (applyOperation x y (op tok)) ;;
             let st := r :: st' in
             print [Text "Applying "; Chr (op tok); Text " to "; Dbl x;
                    Text " and "; Dbl y; Text " -> "; Dbl r; Text nl] ;;
             ret st)%io
        | _ => throw (runtime_error
                 "Invalid expression: missing operand for binary operator.")
        end
  | _ => ret st
  end.

Fixpoint evaluatePostfix_loop (postfix : list Token) (st : list float)
    : IO (list float) :=
  match postfix with
  | [] => ret st
  | tok :: postfix' =>
      (st' <- evaluatePostfix_body tok st ;;
       evaluatePostfix_loop postfix' st')%io
  end.

Definition evaluatePostfix (postfix : list Token) : IO float :=
  (st <- evaluatePostfix_loop postfix [] ;;
   match st with
   | [top] => ret top
   | _ => throw (runtime_error
            "Invalid expression: malformed expression or missing operators.")
   end)%io.

Definition debug_token (tok : Token) : IO unit :=
  match type tok with
  | NUMBER => print [Text "Number: "; Dbl (value tok); Text nl]
  | OPERATOR => print [Text "Operator: "; Chr (op tok); Text nl]
  | PAREN_LEFT => print [Text ("Paren: (" ++ nl)]
  | PAREN_RIGHT => print [Text ("Paren: )" ++ nl)]
  end.

Fixpoint debug_loop (tokens : list Token) : IO unit :=
  match tokens with
  | [] => ret tt
  | tok :: tokens' => (debug_token tok ;; debug_loop tokens')%io
  end.

Definition debug (tokens : list Token) (stage : string) : IO unit :=
  (print [Text (nl ++ "--- Debug: "); Text stage; Text (" ---" ++ nl)] ;;
   debug_loop tokens ;;
   print [Text ("-----------------------------------" ++ nl)])%io.

(** [evaluateExpr] on a calculator whose member [expr] holds the string; the
    value returned is also the one stored in the member [result]. *)
Definition evaluateExpr (expr : string) : IO float :=
  (tokens <- lift (tokenize expr) ;;
   debug tokens "After Tokenization" ;;
   postfix <- lift (toPostfix tokens) ;;
   debug postfix "Postfix Conversion" ;;
   evaluatePostfix postfix)%io.

(** What the caller of [evaluateExpr] gets back: the value, or the exception. *)
Definition evaluate (expr : string) : result float :=
  fst (evaluateExpr expr []).

End Calculator.

Section Application.
Context {lib : CxxLib}.

(** [calc.inputExpr()] when [std::getline] delivers [line]. *)
Definition inputExpr (line : string) (c : Calculator.t) : Calculator.t :=
  Calculator.mk line (Calculator.result c).

Definition getExpr (c : Calculator.t) : string := Calculator.expr c.

(** [calc.evaluateExpr()] as a member function: reads [expr], writes the
    trace and, when no stage throws, assigns [result]. *)
Definition evaluateExpr_member (c : Calculator.t) : IO Calculator.t :=
  (v <- evaluateExpr (Calculator.expr c) ;;
   ret (Calculator.mk (Calculator.expr c) v))%io.

Definition displayResult (c : Calculator.t) : IO unit :=
  print [Text "Answer: "; Dbl (Calculator.result c); Text nl].

Definition greet : IO unit :=
  print [Text (nl ++ "------ Welcome to Calculator 2.0 ------" ++ nl);
         Text ("Available operations (PEMDAS): (), %, ^, *, /, +, -. Negative numbers supported!" ++ nl);
         Text ("Type 'exit' to close program. Type 'help' for hints." ++ nl)].

(** The body of [while (true)] in [run] from the return of [std::getline],
    which delivered [line], to the end of the turn. *)
Definition run_body (line : string) (app : App) : control * App :=
  let c := inputExpr line (calc app) in
  if (getExpr c =? "exit")%string then
    (Break,
     mkApp c (cout app ++ [Text ("Program finished with exit code 0." ++ nl ++ nl)])
           (cerr app))
  else if (getExpr c =? "help")%string then
    (Continue,
     mkApp c
       (cout app ++
        [Text (nl ++ "Enter any mathematical expression using numbers and any of the following operations: (), %, ^, *, /, +, -.");
         Text (nl ++ "Type 'exit' to close program." ++ nl)])
       (cerr app))
  else
    match (c' <- evaluateExpr_member c ;;
           displayResult c' ;;
           ret c')%io (cout app) with
    | (Ok c', out) => (Continue, mkApp c' out (cerr app))
    | (Throw (runtime_error what), out) =>
        (Continue, mkApp c out (cerr app ++ [Text "Error: "; Text what; Text nl]))
    | (Throw e, out) => (Uncaught e, mkApp c out (cerr app))
    end.

(** [while (true)] on the lines that [std::getline] delivers, in order. *)
Fixpoint run_loop (lines : list string) (app : App) : status * App :=
  let app := write_cout [Text (nl ++ "Enter your expression: ")] app in
  match lines with
  | [] => (Waiting, app)
  | line :: lines' =>
      match run_body line app with
      | (Continue, app') => run_loop lines' app'
      | (Break, app') => (Returned, app')
      | (Uncaught e, app') => (Terminated e, app')
      end
  end.

(** [Application::run] of an application whose calculator holds [c]. *)
Definition run (lines : list string) (c : Calculator.t) : status * App :=
  let '(_, out) := greet [] in
  run_loop lines (mkApp c out []).

End Application.
End Traced.

(** * src/clean/main.cpp *)

Module Clean.
Section Calculator.
Context {lib : CxxLib}.

Definition precedence (op : ascii) : Z :=
  match op with
  | "+"%char
  | "-"%char => 1
  | "*"%char
  | "/"%char => 2
  | "u"%char => 3
  | "^"%char => 4
  | "%"%char => 5
  | _ => 0
  end.

Definition applyOperation (x y : float) (op : ascii) : result float :=
  match op with
  | "+"%char => Ok (x + y)%float
  | "-"%char => Ok (x - y)%float
  | "*"%char => Ok (x * y)%float
  | "/"%char =>
      if (y =? 0)%float
      then Throw (runtime_error "Division by zero!")
      else Ok (x / y)%float
  | "^"%char => Ok (pow x y)
  | _ => Throw (runtime_error ("Unknown operator: " ++ String op ""))
  end.

Fixpoint scan_number (rest : string) (i : nat) (numStr : string)
    (hasDecimal : bool) : result (string * nat * string) :=
  match rest with
  | String c rest' =>
      if isdigit c || (c =? ".")%char then
        if (c =? ".")%char then
          if hasDecimal
          then Throw (runtime_error "Invalid number: multiple decimal points.")
          else scan_number rest' (S i) (push_char numStr c) true
        else scan_number rest' (S i) (push_char numStr c) hasDecimal
      else Ok (numStr, i, rest)
  | EmptyString => Ok (numStr, i, rest)
  end.

Definition next_isdigit (rest' : string) : bool :=
  match rest' with
  | String d _ => isdigit d
  | EmptyString => false
  end.

Fixpoint tokenize_loop (fuel : nat) (rest : string) (i : nat)
    (tokens : list Token) : option (result (list Token)) :=
  match rest with
  | EmptyString => Some (Ok tokens)
  | String c rest' =>
    match fuel with
    | O => None
    | S fuel' =>
      if isspace c then tokenize_loop fuel' rest' (S i) tokens
      else if (c =? "-")%char &&
              ((i =? 0)%nat || empty tokens ||
               back_has_type tokens OPERATOR || back_has_type tokens PAREN_LEFT)
      then tokenize_loop fuel' rest' (S i) (tokens ++ [mkToken OPERATOR 0 "u"])
      else if isdigit c || ((c =? ".")%char && next_isdigit rest') then
        match scan_number rest i "" false with
        | Throw e => Some (Throw e)
        | Ok (numStr, i', rest'') =>
            match stod numStr with
            | Throw e => Some (Throw e)
            | Ok v => tokenize_loop fuel' rest'' i' (tokens ++ [mkToken NUMBER v NUL])
            end
        end
      else if (c =? "+")%char || (c =? "-")%char || (c =? "*")%char ||
              (c =? "/")%char || (c =? "^")%char || (c =? "%")%char
      then tokenize_loop fuel' rest' (S i) (tokens ++ [mkToken OPERATOR 0 c])
      else if (c =? "(")%char
      then tokenize_loop fuel' rest' (S i) (tokens ++ [mkToken PAREN_LEFT 0 NUL])
      else if (c =? ")")%char
      then tokenize_loop fuel' rest' (S i) (tokens ++ [mkToken PAREN_RIGHT 0 NUL])
      else Some (Throw (runtime_error ("Unknown character: " ++ String c "")))
    end
  end.

Definition tokenize (expr : string) : result (list Token) :=
  match tokenize_loop (String.length expr) expr 0 [] with
  | Some r => r
  | None => Ok []   (* never taken, as in Traced *)
  end.

Definition isRightAssociative (op : ascii) : bool :=
  (op =? "^")%char || (op =? "u")%char || (op =? "%")%char.

Fixpoint pop_operators (tok : Token) (opStack output : list Token)
    : list Token * list Token :=
  match opStack with
  | top :: below =>
      if TokenType_eqb (type top) OPERATOR then
        let topOp := op top in
        if (negb (isRightAssociative (op tok)) &&
            (precedence topOp >=? precedence (op tok))%Z) ||
           (isRightAssociative (op tok) &&
            (precedence topOp >? precedence (op tok))%Z)
        then pop_operators tok below (output ++ [top])
        else (opStack, output)
      else (opStack, output)
  | [] => (opStack, output)
  end.

Fixpoint pop_to_paren (opStack output : list Token) : list Token * list Token :=
  match opStack with
  | top :: below =>
      if negb (TokenType_eqb (type top) PAREN_LEFT)
      then pop_to_paren below (output ++ [top])
      else (opStack, output)
  | [] => (opStack, output)
  end.

Definition toPostfix_body (tok : Token) (opStack output : list Token)
    : result (list Token * list Token) :=
  match type tok with
  | NUMBER => Ok (opStack, output ++ [tok])
  | OPERATOR =>
      let '(opStack', output') := pop_operators tok opStack output in
      Ok (tok :: opStack', output')
  | PAREN_LEFT => Ok (tok :: opStack, output)
  | PAREN_RIGHT =>
      let '(opStack', output') := pop_to_paren opStack output in
      match opStack' with
      | [] => Throw (runtime_error "Mismatched parentheses: unexpected ')'")
      | _ :: below => Ok (below, output')
      end
  end.

Fixpoint toPostfix_loop (tokens opStack output : list Token)
    : result (list Token * list Token) :=
  match tokens with
  | [] => Ok (opStack, output)
  | tok :: tokens' =>
      ('(opStack', output') <- toPostfix_body tok opStack output ;;
       toPostfix_loop tokens' opStack' output')%result
  end.

Fixpoint drain (opStack output : list Token) : result (list Token) :=
  match opStack with
  | [] => Ok output
  | top :: below =>
      if TokenType_eqb (type top) PAREN_LEFT
      then Throw (runtime_error "Mismatched parentheses: unclosed '('")
      else drain below (output ++ [top])
  end.

Definition toPostfix (tokens : list Token) : result (list Token) :=
  ('(opStack, output) <- toPostfix_loop tokens [] [] ;;
   drain opStack output)%result.

Definition evaluatePostfix_body (tok : Token) (st : list float)
    : result (list float) :=
  match type tok with
  | NUMBER => Ok (value tok :: st)
  | OPERATOR =>
      if (op tok =? "u")%char then
        match st with
        | [] => Throw (runtime_error
                  "Invalid expression: missing operand for unary minus.")
        | x :: st' => Ok ((- x)%float :: st')
        end
      else if (op tok =? "%")%char then
        match st with
        | [] => Throw (runtime_error
                  "Invalid expression: missing operand for '%'.")
        | x :: st' =>
            let r := (x / 100)%float in
            Ok (r :: st')
        end
      else
        match st with
        | y :: x :: st' =>
            (r <- applyOperation x y (op tok) ;;
             Ok (r :: st'))%result
        | _ => Throw (runtime_error
                 "Invalid expression: missing operand for binary operator.")
        end
  | _ => Ok st
  end.

Fixpoint evaluatePostfix_loop (postfix : list Token) (st : list float)
    : result (list float) :=
  match postfix with
  | [] => Ok st
  | tok :: postfix' =>
      (st' <- evaluatePostfix_body tok st ;;
       evaluatePostfix_loop postfix' st')%result
  end.

Definition evaluatePostfix (postfix : list Token) : result float :=
  (st <- evaluatePostfix_loop postfix [] ;;
   match st with
   | [top] => Ok top
   | _ => Throw (runtime_error
            "Invalid expression: malformed expression or missing operators.")
   end)%result.

(** [evaluateExpr] returns [void]: the value is the one it stores in the
    member [result], which [displayResult] prints; nothing is stored when a
    stage throws. *)
Definition evaluateExpr (expr : string) : result float :=
  (tokens <- tokenize expr ;;
   postfix <- toPostfix tokens ;;
   evaluatePostfix postfix)%result.

End Calculator.

Section Application.
Context {lib : CxxLib}.

Definition inputExpr (line : string) (c : Calculator.t) : Calculator.t :=
  Calculator.mk line (Calculator.result c).

Definition getExpr (c : Calculator.t) : string := Calculator.expr c.

(** [calc.evaluateExpr()] as a member function: assigns [result] when no
    stage throws. *)
Definition evaluateExpr_member (c : Calculator.t) : result Calculator.t :=
  (v <- evaluateExpr (Calculator.expr c) ;;
   Ok (Calculator.mk (Calculator.expr c) v))%result.

Definition displayResult (c : Calculator.t) : IO unit :=
  print [Text "Answer: "; Dbl (Calculator.result c); Text nl].

Definition greet : IO unit :=
  print [Text (nl ++ "------ Welcome to Calculator 2.0 ------" ++ nl);
         Text ("Available operations (PEMDAS): (), %, ^, *, /, +, -. Negative numbers supported!" ++ nl);
         Text ("Type 'exit' to close program. Type 'help' for hints." ++ nl)].

Definition run_body (line : string) (app : App) : control * App :=
  let c := inputExpr line (calc app) in
  if (getExpr c =? "exit")%string then
    (Break,
     mkApp c (cout app ++ [Text ("Program finished with exit code 0." ++ nl ++ nl)])
           (cerr app))
  else if (getExpr c =? "help")%string then
    (Continue,
     mkApp c
       (cout app ++
        [Text (nl ++ "Enter any mathematical expression using numbers and any of the following operations: (), %, ^, *, /, +, -.");
         Text (nl ++ "Type 'exit' to close program." ++ nl)])
       (cerr app))
  else
    match (c' <- lift (evaluateExpr_member c) ;;
           displayResult c' ;;
           ret c')%io (cout app) with
    | (Ok c', out) => (Continue, mkApp c' out (cerr app))
    | (Throw (runtime_error what), out) =>
        (Continue, mkApp c out (cerr app ++ [Text "Error: "; Text what; Text nl]))
    | (Throw e, out) => (Uncaught e, mkApp c out (cerr app))
    end.

Fixpoint run_loop (lines : list string) (app : App) : status * App :=
  let app := write_cout [Text (nl ++ "Enter your expression: ")] app in
  match lines with
  | [] => (Waiting, app)
  | line :: lines' =>
      match run_body line app with
      | (Continue, app') => run_loop lines' app'
      | (Break, app') => (Returned, app')
      | (Uncaught e, app') => (Terminated e, app')
      end
  end.

Definition run (lines : list string) (c : Calculator.t) : status * App :=
  let '(_, out) := greet [] in
  run_loop lines (mkApp c out []).

End Application.
End Clean.

(** * An executable instance of the library interface

    Used to run the calculator on concrete inputs. [stod_dec] rounds the
    decimal numeral [n / 10^k] to binary64 with one correctly rounded division
    and reports a result that is not finite as [out_of_range]; [pow_nat] is
    [pow] on exponents that are natural numbers up to 1024, by repeated
    multiplication (exact whenever the product is), and NaN elsewhere. *)

Definition digit_value (c : ascii) : Z := Z.of_N (N_of_ascii c) - 48.

(** The digits of [s] as an integer and the number of digits after the
    ['.'], if any. *)
Fixpoint read_decimal (s : string) (n : Z) (k : option nat) : Z * option nat :=
  match s with
  | EmptyString => (n, k)
  | String c s' =>
      if (c =? ".")%char then read_decimal s' n (Some O)
      else read_decimal s' (10 * n + digit_value c)%Z (option_map S k)
  end.

Definition stod_dec (s : string) : result float :=
  let '(n, k) := read_decimal s 0%Z None in
  let k := match k with Some k => k | None => O end in
  match n with
  | Zpos p =>
      let v := SF2Prim (SFdiv prec emax (S754_finite false p 0)
                          (S754_finite false (Z.to_pos (10 ^ Z.of_nat k)) 0)) in
      if PrimFloat.is_infinity v then Throw (out_of_range "stod") else Ok v
  | _ => Ok 0%float
  end.

(** The natural number a finite [double] denotes, if it denotes one. *)
Definition to_nat (y : float) : option nat :=
  match Prim2SF y with
  | S754_zero _ => Some O
  | S754_finite false m e =>
      let v := (Zpos m * 2 ^ e)%Z in
      if ((0 <=? e) && (v <=? 1024))%Z then Some (Z.to_nat v)
      else if ((Zpos m mod 2 ^ (- e) =? 0) && (Zpos m / 2 ^ (- e) <=? 1024))%Z
      then Some (Z.to_nat (Zpos m / 2 ^ (- e)))
      else None
  | _ => None
  end.

Fixpoint pow_iter (x : float) (n : nat) : float :=
  match n with
  | O => 1%float
  | S n' => (x * pow_iter x n')%float
  end.

Definition pow_nat (x y : float) : float :=
  match to_nat y with
  | Some n => pow_iter x n
  | None => PrimFloat.nan
  end.

Definition ref_lib : CxxLib := {| stod := stod_dec; pow := pow_nat |}.

(** A literal beyond the range of [double]: 1 followed by 309 zeros. *)
Fixpoint zeros (n : nat) : string :=
  match n with
  | O => ""
  | S n' => String "0" (zeros n')
  end.

Definition overflowing : string := String "1" (zeros 309).

(** * Vocabulary of the properties *)

Local Open Scope result_scope.

(** A character of a number literal: a digit or ['.']. *)
Definition numchar (c : ascii) : bool := isdigit c || (c =? ".")%char.

Fixpoint all (p : ascii -> bool) (s : string) : bool :=
  match s with
  | EmptyString => true
  | String c s' => p c && all p s'
  end.

(** How many ['.'] a string holds. *)
Fixpoint dots (s : string) : nat :=
  match s with
  | EmptyString => O
  | String c s' => (if (c =? ".")%char then 1 else 0) + dots s'
  end.

Definition starts_with (p : ascii -> bool) (s : string) : bool :=
  match s with
  | String c _ => p c
  | EmptyString => false
  end.

(** The string opens with a digit, or with ['.'] and then a digit. *)
Definition begins_number (s : string) : bool :=
  match s with
  | String c s' => isdigit c || ((c =? ".")%char && starts_with isdigit s')
  | EmptyString => false
  end.

(** An unsigned decimal literal: digits with at most one ['.']. *)
Definition is_literal (s : string) : bool :=
  begins_number s && all numchar s && (dots s <=? 1)%nat.

(** The lexer started at cursor [i] with [rest = expr.substr(i)], with the
    fuel that always suffices. *)
Definition tokenize_from {lib : CxxLib} (rest : string) (i : nat)
    (tokens : list Token) : result (list Token) :=
  match Traced.tokenize_loop (String.length rest) rest i tokens with
  | Some r => r
  | None => Ok []
  end.

(** Where a ['-'] is read as the unary minus: nothing but white space before
    it, or the last token emitted is an operator or a left parenthesis. *)
Definition unary_position (before : string) (tokens : list Token) : bool :=
  all isspace before ||
  back_has_type tokens OPERATOR || back_has_type tokens PAREN_LEFT.

(** The operator on top of the stack leaves before [t] is pushed. *)
Definition pops_before (top t : Token) : Prop :=
  (Traced.precedence (op top) > Traced.precedence (op t))%Z \/
  (Traced.precedence (op top) = Traced.precedence (op t) /\
   Traced.isRightAssociative (op t) = false).

(** Matching of the parentheses of a token sequence, read left to right with
    the number of parentheses open so far. *)
Inductive paren_status : Type := Balanced | UnexpectedRight | UnclosedLeft.

Fixpoint paren_scan (depth : nat) (tokens : list Token) : paren_status :=
  match tokens with
  | [] => match depth with O => Balanced | S _ => UnclosedLeft end
  | tok :: tokens' =>
      match type tok with
      | PAREN_LEFT => paren_scan (S depth) tokens'
      | PAREN_RIGHT =>
          match depth with
          | O => UnexpectedRight
          | S depth' => paren_scan depth' tokens'
          end
      | _ => paren_scan depth tokens'
      end
  end.

(** The two exceptions of [toPostfix]. *)
Definition unexpected_right : exception :=
  runtime_error "Mismatched parentheses: unexpected ')'".

Definition unclosed_left : exception :=
  runtime_error "Mismatched parentheses: unclosed '('".

(** The exceptions of [evaluatePostfix] and [tokenize] the properties name. *)
Definition malformed : exception :=
  runtime_error "Invalid expression: malformed expression or missing operators.".

Definition missing_percent_operand : exception :=
  runtime_error "Invalid expression: missing operand for '%'.".

Definition division_by_zero : exception := runtime_error "Division by zero!".

Definition multiple_decimal_points : exception :=
  runtime_error "Invalid number: multiple decimal points.".

Definition left_parens (opStack : list Token) : nat :=
  List.length (filter (fun t => TokenType_eqb (type t) PAREN_LEFT) opStack).

Definition number_or_operator (t : Token) : Prop :=
  type t = NUMBER \/ type t = OPERATOR.

Definition operator_or_left (t : Token) : Prop :=
  type t = OPERATOR \/ type t = PAREN_LEFT.

(** The other exceptions of the calculator. *)
Definition missing_unary_operand : exception :=
  runtime_error "Invalid expression: missing operand for unary minus.".

Definition missing_binary_operand : exception :=
  runtime_error "Invalid expression: missing operand for binary operator.".

Definition unknown_character (c : ascii) : exception :=
  runtime_error ("Unknown character: " ++ String c "").

Definition unknown_operator (c : ascii) : exception :=
  runtime_error ("Unknown operator: " ++ String c "").

(** Kinds of tokens. *)
Definition is_number (t : Token) : bool := TokenType_eqb (type t) NUMBER.

Definition is_paren (t : Token) : bool :=
  TokenType_eqb (type t) PAREN_LEFT || TokenType_eqb (type t) PAREN_RIGHT.

Definition not_paren (t : Token) : bool := negb (is_paren t).

(** An operator token that the evaluator treats as binary: any but ['u'] and
    ['%']. *)
Definition is_binary (t : Token) : bool :=
  TokenType_eqb (type t) OPERATOR &&
  negb (op t =? "u")%char && negb (op t =? "%")%char.

(** The tokens the lexer builds. *)
Definition lexed (t : Token) : Prop :=
  match type t with
  | NUMBER => op t = NUL
  | OPERATOR =>
      value t = 0%float /\ In (op t) ["+"; "-"; "*"; "/"; "^"; "%"; "u"]%char
  | PAREN_LEFT | PAREN_RIGHT => value t = 0%float /\ op t = NUL
  end.

(** What the lexer looks at in [tokens] when it meets a ['-']. *)
Definition minus_context (tokens : list Token) : bool :=
  empty tokens || back_has_type tokens OPERATOR || back_has_type tokens PAREN_LEFT.

(** Two runs of the lexer that end alike: the same exception, or the same new
    tokens after the tokens each run started with. *)
Definition same_lexemes (tokens1 tokens2 : list Token)
    (r1 r2 : result (list Token)) : Prop :=
  match r1, r2 with
  | Ok out1, Ok out2 =>
      exists new, out1 = tokens1 ++ new /\ out2 = tokens2 ++ new
  | Throw e1, Throw e2 => e1 = e2
  | _, _ => False
  end.


(** A computation that only appends to the stream, and whose outcome and
    output do not depend on what the stream already holds. *)
Definition appends {A : Type} (m : IO A) : Prop :=
  forall out, m out = (fst (m []), out ++ snd (m [])).

(** The streams of an application, without its calculator. *)
Definition console (app : App) : ostream * ostream := (cout app, cerr app).


(** * Strings *)

Ltac split_if :=
  match goal with
  | |- context [if ?b then _ else _] => destruct b eqn:?
  end.

Lemma append_assoc (a b c : string) : ((a ++ b) ++ c = a ++ (b ++ c))%string.
Proof. induction a as [|x a IH]; cbn; [reflexivity | now rewrite IH]. Qed.

Lemma append_empty_r (a : string) : (a ++ "")%string = a.
Proof. induction a as [|x a IH]; cbn; [reflexivity | now rewrite IH]. Qed.

Lemma length_append (a b : string) :
  String.length (a ++ b) = (String.length a + String.length b)%nat.
Proof. induction a as [|x a IH]; cbn; [reflexivity | now rewrite IH]. Qed.

Lemma push_char_append (a b : string) (c : ascii) :
  (push_char a c ++ b = a ++ String c b)%string.
Proof. unfold push_char. now rewrite append_assoc. Qed.

Lemma TokenType_eqb_eq (a b : TokenType) : TokenType_eqb a b = true <-> a = b.
Proof. destruct a, b; cbn; split; congruence. Qed.

Lemma back_app {A : Type} (v : list A) (x : A) : back (v ++ [x]) = Some x.
Proof.
  induction v as [|y v IH]; [reflexivity|].
  cbn [app back]. destruct (v ++ [x]) eqn:E; [|exact IH].
  destruct v; discriminate.
Qed.

Lemma empty_app {A : Type} (v w : list A) : empty (v ++ w) = empty v && empty w.
Proof. destruct v; reflexivity. Qed.

(** * The lexer terminates within its fuel *)

Section Lexer.
Context {lib : CxxLib}.

Lemma scan_number_length rest : forall i numStr hasDecimal numStr' i' rest'',
  Traced.scan_number rest i numStr hasDecimal = Ok (numStr', i', rest'') ->
  (String.length rest'' <= String.length rest)%nat.
Proof.
  induction rest as [|c rest IH]; intros i ns h ns' i' r H; cbn in H.
  - injection H as _ _ <-. apply le_n.
  - destruct (isdigit c || (c =? ".")%char).
    + destruct (c =? ".")%char.
      * destruct h; [discriminate|]. apply IH in H. cbn. lia.
      * apply IH in H. cbn. lia.
    + injection H as _ _ <-. apply le_n.
Qed.

(** The first character of a number is always consumed. *)
Lemma scan_number_progress c rest' i numStr' i' rest'' :
  (isdigit c || ((c =? ".")%char && Traced.next_isdigit rest')) = true ->
  Traced.scan_number (String c rest') i "" false = Ok (numStr', i', rest'') ->
  (String.length rest'' <= String.length rest')%nat.
Proof.
  intros Hc H. cbn in H.
  assert (Hn : (isdigit c || (c =? ".")%char) = true).
  { destruct (isdigit c); [reflexivity|]. cbn in *.
    destruct (c =? ".")%char; [reflexivity | discriminate]. }
  rewrite Hn in H. destruct (c =? ".")%char; now apply scan_number_length in H.
Qed.

(** More fuel than the characters left changes nothing. *)
Lemma tokenize_loop_more f1 : forall f2 rest i tokens,
  (String.length rest <= f1)%nat -> (String.length rest <= f2)%nat ->
  Traced.tokenize_loop f1 rest i tokens = Traced.tokenize_loop f2 rest i tokens /\
  Traced.tokenize_loop f1 rest i tokens <> None.
Proof.
  induction f1 as [|f1 IH]; intros f2 rest i tokens H1 H2.
  - destruct rest; [|cbn in H1; lia]. destruct f2; cbn; split; congruence.
  - destruct rest as [|c rest']; [destruct f2; cbn; split; congruence|].
    destruct f2 as [|f2]; [cbn in H2; lia|].
    cbn [String.length] in *. cbn [Traced.tokenize_loop].
    assert (Hl1 : (String.length rest' <= f1)%nat) by lia.
    assert (Hl2 : (String.length rest' <= f2)%nat) by lia.
    repeat split_if; try (apply IH; assumption); try (split; congruence).
    destruct (Traced.scan_number (String c rest') i "" false)
      as [[[ns i'] r]|e] eqn:Hs; [|split; congruence].
    destruct (stod ns); [|split; congruence].
    pose proof (scan_number_progress _ _ _ _ _ _ Heqb1 Hs).
    apply IH; lia.
Qed.

Lemma tokenize_loop_fuel fuel rest i tokens :
  (String.length rest <= fuel)%nat ->
  Traced.tokenize_loop fuel rest i tokens = Some (tokenize_from rest i tokens).
Proof.
  intros Hlen. unfold tokenize_from.
  destruct (tokenize_loop_more fuel (String.length rest) rest i tokens Hlen (le_n _))
    as [-> Hsome].
  destruct (tokenize_loop_more (String.length rest) (String.length rest) rest i tokens
              (le_n _) (le_n _)) as [_ Hs].
  destruct (Traced.tokenize_loop (String.length rest) rest i tokens);
    [reflexivity | contradiction].
Qed.

(** [tokenize] never runs out of fuel. *)
Lemma tokenize_total expr :
  Traced.tokenize_loop (String.length expr) expr 0 [] <> None.
Proof. rewrite tokenize_loop_fuel by apply le_n. discriminate. Qed.

Lemma tokenize_from_start expr : Traced.tokenize expr = tokenize_from expr 0 [].
Proof. reflexivity. Qed.

(** One iteration of the outer loop, without fuel. *)
Lemma tokenize_from_unfold c rest' i tokens :
  tokenize_from (String c rest') i tokens =
    if isspace c then tokenize_from rest' (S i) tokens
    else if (c =? "-")%char &&
            ((i =? 0)%nat || empty tokens ||
             back_has_type tokens OPERATOR || back_has_type tokens PAREN_LEFT)
    then tokenize_from rest' (S i) (tokens ++ [mkToken OPERATOR 0 "u"])
    else if isdigit c || ((c =? ".")%char && Traced.next_isdigit rest') then
      '(numStr, i', rest'') <- Traced.scan_number (String c rest') i "" false ;;
      v <- stod numStr ;;
      tokenize_from rest'' i' (tokens ++ [mkToken NUMBER v NUL])
    else if (c =? "+")%char || (c =? "-")%char || (c =? "*")%char ||
            (c =? "/")%char || (c =? "^")%char || (c =? "%")%char
    then tokenize_from rest' (S i) (tokens ++ [mkToken OPERATOR 0 c])
    else if (c =? "(")%char
    then tokenize_from rest' (S i) (tokens ++ [mkToken PAREN_LEFT 0 NUL])
    else if (c =? ")")%char
    then tokenize_from rest' (S i) (tokens ++ [mkToken PAREN_RIGHT 0 NUL])
    else Throw (runtime_error ("Unknown character: " ++ String c "")).
Proof.
  unfold tokenize_from at 1. cbn [String.length Traced.tokenize_loop].
  repeat split_if; try (rewrite tokenize_loop_fuel by apply le_n; reflexivity);
    try reflexivity.
  destruct (Traced.scan_number (String c rest') i "" false)
    as [[[ns i'] r]|e] eqn:Hs; [|reflexivity].
  cbn [bind]. destruct (stod ns); [|reflexivity]. cbn [bind].
  pose proof (scan_number_progress _ _ _ _ _ _ Heqb1 Hs).
  now rewrite tokenize_loop_fuel.
Qed.

Lemma tokenize_from_empty i tokens : tokenize_from "" i tokens = Ok tokens.
Proof. reflexivity. Qed.

(** ** Characters *)

Lemma numchar_not_space c : numchar c = true -> isspace c = false.
Proof.
  destruct c as [[] [] [] [] [] [] [] []]; cbv; intros; congruence.
Qed.

Lemma numchar_not_minus c : numchar c = true -> (c =? "-")%char = false.
Proof.
  intros H. destruct (Ascii.eqb_spec c "-"); [subst; discriminate | reflexivity].
Qed.

Lemma isdigit_numchar c : isdigit c = true -> numchar c = true.
Proof. unfold numchar. now intros ->. Qed.

(** ** The inner loop on a run of digits and dots *)

Lemma scan_number_run run : forall tail i numStr hasDecimal,
  all numchar run = true -> starts_with numchar tail = false ->
  Traced.scan_number (run ++ tail) i numStr hasDecimal =
    if (dots run + (if hasDecimal then 1 else 0) <=? 1)%nat
    then Ok ((numStr ++ run)%string, (i + String.length run)%nat, tail)
    else Throw (runtime_error "Invalid number: multiple decimal points.").
Proof.
  induction run as [|c run IH]; intros tail i ns h Hall Htail.
  - cbn [append dots String.length]. rewrite append_empty_r, Nat.add_0_r.
    replace ((0 + (if h then 1 else 0) <=? 1)%nat) with true by now destruct h.
    destruct tail as [|d tail]; [reflexivity|].
    cbn in Htail. cbn [Traced.scan_number]. fold (numchar d). now rewrite Htail.
  - cbn [all] in Hall. apply andb_prop in Hall as [Hc Hall].
    cbn [append Traced.scan_number]. fold (numchar c). rewrite Hc.
    cbn [dots String.length].
    destruct (c =? ".")%char; cbv iota.
    + destruct h.
      * replace ((1 + dots run + 1 <=? 1)%nat) with false; [reflexivity|].
        symmetry. apply Nat.leb_gt. lia.
      * rewrite (IH tail (S i) (push_char ns c) true Hall Htail).
        rewrite push_char_append.
        replace (1 + dots run + 0)%nat with (dots run + 1)%nat by lia.
        now replace (S i + String.length run)%nat
          with (i + S (String.length run))%nat by lia.
    + rewrite (IH tail (S i) (push_char ns c) h Hall Htail).
      rewrite push_char_append.
      replace (0 + dots run)%nat with (dots run) by reflexivity.
      now replace (S i + String.length run)%nat
        with (i + S (String.length run))%nat by lia.
Qed.

(** A number literal in front of the cursor becomes one NUMBER token. *)
Lemma tokenize_from_number run tail i tokens :
  all numchar run = true -> begins_number run = true ->
  starts_with numchar tail = false ->
  tokenize_from (run ++ tail) i tokens =
    if (1 <? dots run)%nat
    then Throw (runtime_error "Invalid number: multiple decimal points.")
    else v <- stod run ;;
         tokenize_from tail (i + String.length run) (tokens ++ [mkToken NUMBER v NUL]).
Proof.
  intros Hall Hbegin Htail.
  destruct run as [|c run']; [discriminate|].
  pose proof Hall as Hall'. cbn [all] in Hall'. apply andb_prop in Hall' as [Hc _].
  change (String c run' ++ tail)%string with (String c (run' ++ tail)).
  rewrite tokenize_from_unfold.
  rewrite (numchar_not_space c Hc), (numchar_not_minus c Hc). cbn [andb].
  replace (isdigit c || (c =? ".")%char && Traced.next_isdigit (run' ++ tail))
    with true.
  2:{ symmetry. cbn [begins_number] in Hbegin.
      destruct (isdigit c); [reflexivity|]. cbn [orb] in *.
      destruct (c =? ".")%char; [|discriminate]. cbn [andb] in *.
      destruct run'; [discriminate | exact Hbegin]. }
  change (String c (run' ++ tail)) with (String c run' ++ tail)%string.
  rewrite (scan_number_run _ tail i "" false Hall Htail).
  rewrite Nat.add_0_r. cbn [append].
  destruct (dots (String c run')) as [|[|n]]; reflexivity.
Qed.

(** White space in front of the cursor is skipped. *)
Lemma tokenize_from_spaces w : forall rest i tokens,
  all isspace w = true ->
  tokenize_from (w ++ rest) i tokens =
  tokenize_from rest (i + String.length w) tokens.
Proof.
  induction w as [|c w IH]; intros rest i tokens H.
  - cbn. now rewrite Nat.add_0_r.
  - cbn [all] in H. apply andb_prop in H as [Hc Hw].
    cbn [append String.length]. rewrite tokenize_from_unfold, Hc, IH by assumption.
    f_equal. lia.
Qed.

(** A ['-'] under the cursor. *)
Lemma tokenize_from_minus rest' i tokens :
  tokenize_from (String "-" rest') i tokens =
  tokenize_from rest' (S i)
    (tokens ++ [if (i =? 0)%nat || empty tokens ||
                   back_has_type tokens OPERATOR || back_has_type tokens PAREN_LEFT
                then mkToken OPERATOR 0 "u" else mkToken OPERATOR 0 "-"]).
Proof.
  rewrite tokenize_from_unfold.
  change (isspace "-") with false. change ("-" =? "-")%char with true.
  cbn [andb].
  destruct ((i =? 0)%nat || empty tokens || back_has_type tokens OPERATOR
            || back_has_type tokens PAREN_LEFT); reflexivity.
Qed.

(** One of [+ * / ^ %] under the cursor. *)
Lemma tokenize_from_operator c rest' i tokens :
  In c ["+"; "*"; "/"; "^"; "%"]%char ->
  tokenize_from (String c rest') i tokens =
  tokenize_from rest' (S i) (tokens ++ [mkToken OPERATOR 0 c]).
Proof.
  intros H. rewrite tokenize_from_unfold.
  cbn [In] in H.
  destruct H as [<-|[<-|[<-|[<-|[<-|[]]]]]]; reflexivity.
Qed.

(** ** The lexer on a prefix of its input *)

Lemma scan_number_app s : forall c post i numStr hasDecimal,
  numchar c = false ->
  Traced.scan_number (s ++ String c post) i numStr hasDecimal =
    '(numStr', i', r) <- Traced.scan_number s i numStr hasDecimal ;;
    Ok (numStr', i', (r ++ String c post)%string).
Proof.
  induction s as [|d s IH]; intros c post i ns h Hc.
  - cbn. fold (numchar c). now rewrite Hc.
  - cbn [append Traced.scan_number]. fold (numchar d).
    destruct (numchar d); [|reflexivity].
    destruct (d =? ".")%char; [destruct h; [reflexivity|]|]; now apply IH.
Qed.

Lemma scan_number_cursor s : forall i numStr hasDecimal numStr' i' r,
  Traced.scan_number s i numStr hasDecimal = Ok (numStr', i', r) ->
  (i' + String.length r = i + String.length s)%nat.
Proof.
  induction s as [|d s IH]; intros i ns h ns' i' r H; cbn in H.
  - now injection H as _ <- <-.
  - fold (numchar d) in H. destruct (numchar d).
    + destruct (d =? ".")%char; [destruct h; [discriminate|]|];
        apply IH in H; cbn [String.length]; lia.
    + now injection H as _ <- <-.
Qed.

Lemma next_isdigit_app s c post :
  numchar c = false ->
  Traced.next_isdigit (s ++ String c post) = Traced.next_isdigit s.
Proof.
  intros Hc. destruct s; [|reflexivity]. cbn.
  unfold numchar in Hc. now destruct (isdigit c).
Qed.

(** Up to a character that belongs to no number, the lexer works on the text
    before that character as it does on that text alone. *)
Lemma tokenize_from_app n : forall pre c post i tokens,
  (String.length pre <= n)%nat -> numchar c = false ->
  tokenize_from (pre ++ String c post) i tokens =
    tokens' <- tokenize_from pre i tokens ;;
    tokenize_from (String c post) (i + String.length pre) tokens'.
Proof.
  induction n as [|n IH]; intros pre c post i tokens Hlen Hc.
  - destruct pre; [|cbn in Hlen; lia]. cbn [append String.length].
    now rewrite tokenize_from_empty, Nat.add_0_r.
  - destruct pre as [|d pre'].
    { cbn [append String.length]. now rewrite tokenize_from_empty, Nat.add_0_r. }
    cbn [String.length] in *. cbn [append].
    assert (Hl : (String.length pre' <= n)%nat) by lia.
    replace (i + S (String.length pre'))%nat
      with (S i + String.length pre')%nat by lia.
    rewrite (tokenize_from_unfold d (pre' ++ String c post)).
    rewrite (tokenize_from_unfold d pre').
    rewrite next_isdigit_app by assumption.
    repeat split_if; try (now apply IH); try reflexivity.
    change (String d (pre' ++ String c post))
      with (String d pre' ++ String c post)%string.
    rewrite scan_number_app by assumption.
    destruct (Traced.scan_number (String d pre') i "" false)
      as [[[ns i'] r]|e] eqn:Hs; [|reflexivity].
    cbn [bind]. destruct (stod ns); [|reflexivity]. cbn [bind].
    pose proof (scan_number_progress _ _ _ _ _ _ Heqb1 Hs).
    pose proof (scan_number_cursor _ _ _ _ _ _ _ Hs) as Hcur.
    cbn [String.length] in Hcur.
    rewrite IH by (assumption || lia).
    now replace (i' + String.length r)%nat with (S i + String.length pre')%nat by lia.
Qed.

(** The lexer only appends to [tokens], and appends nothing exactly when it
    reads nothing but white space. *)
Lemma tokenize_from_grows n : forall rest i tokens out,
  (String.length rest <= n)%nat ->
  tokenize_from rest i tokens = Ok out ->
  exists new, out = tokens ++ new /\ empty new = all isspace rest.
Proof.
  induction n as [|n IH]; intros rest i tokens out Hlen H.
  - destruct rest; [|cbn in Hlen; lia]. rewrite tokenize_from_empty in H.
    injection H as <-. exists []. now rewrite app_nil_r.
  - destruct rest as [|c rest'].
    { rewrite tokenize_from_empty in H. injection H as <-.
      exists []. now rewrite app_nil_r. }
    cbn [String.length] in Hlen.
    assert (Hl : (String.length rest' <= n)%nat) by lia.
    rewrite tokenize_from_unfold in H. cbn [all].
    assert (Hnext : forall r j t, (String.length r <= n)%nat ->
              isspace c = false ->
              tokenize_from r j (tokens ++ [t]) = Ok out ->
              exists new, out = tokens ++ new /\ empty new = isspace c && all isspace rest').
    { intros r j t Hr Hsp Ht. apply IH in Ht as [new [-> _]]; [|assumption].
      exists (t :: new). rewrite <- app_assoc, Hsp. now split. }
    destruct (isspace c) eqn:Hsp.
    { apply IH in H as [new [-> Hnew]]; [|assumption]. now exists new. }
    revert H. repeat split_if; intros H;
      try (exact (Hnext rest' (S i) _ Hl eq_refl H)); try discriminate.
    destruct (Traced.scan_number (String c rest') i "" false)
      as [[[ns i'] r]|e] eqn:Hs; cbn [bind] in H; [|discriminate].
    destruct (stod ns); cbn [bind] in H; [|discriminate].
    pose proof (scan_number_progress _ _ _ _ _ _ Heqb0 Hs).
    assert (Hr : (String.length r <= n)%nat) by lia.
    exact (Hnext r i' _ Hr eq_refl H).
Qed.

(** When the lexer reaches a character, no token has been emitted exactly
    when everything before it is white space; [i == 0] adds nothing. *)
Lemma tokenize_first_content pre tokens :
  Traced.tokenize pre = Ok tokens ->
  (String.length pre =? 0)%nat || empty tokens = all isspace pre.
Proof.
  intros H. rewrite tokenize_from_start in H.
  apply (tokenize_from_grows _ _ _ _ _ (le_n _)) in H as [new [-> Hnew]].
  cbn [app]. rewrite Hnew. destruct pre; [reflexivity|].
  reflexivity.
Qed.

End Lexer.

(** * The reorderer *)

Section Reorderer.

(** The test of the OPERATOR loop, as the rule it implements. *)
Lemma pop_condition top t :
  (negb (Traced.isRightAssociative (op t)) &&
   (Traced.precedence (op top) >=? Traced.precedence (op t))%Z) ||
  (Traced.isRightAssociative (op t) &&
   (Traced.precedence (op top) >? Traced.precedence (op t))%Z) = true
  <-> pops_before top t.
Proof.
  unfold pops_before. rewrite Z.geb_leb, Z.gtb_ltb.
  destruct (Traced.isRightAssociative (op t)); cbn [negb andb orb].
  - rewrite Z.ltb_lt. split; [lia | intros [H|[_ H]]; [lia | discriminate]].
  - rewrite orb_false_r, Z.leb_le. split; [lia | intros [H|[H _]]; lia].
Qed.

Lemma pop_operators_spec t opStack : forall output,
  exists popped kept,
    opStack = popped ++ kept /\
    Traced.pop_operators t opStack output = (kept, output ++ popped) /\
    Forall (fun top => type top = OPERATOR /\ pops_before top t) popped /\
    match kept with
    | [] => True
    | top :: _ => ~ (type top = OPERATOR /\ pops_before top t)
    end.
Proof.
  induction opStack as [|top below IH]; intros output.
  - exists [], []. cbn. rewrite app_nil_r. repeat split; constructor.
  - cbn [Traced.pop_operators].
    destruct (TokenType_eqb (type top) OPERATOR) eqn:Hty.
    + apply TokenType_eqb_eq in Hty.
      match goal with |- context [if ?b then _ else _] => destruct b eqn:Hc end.
      * apply pop_condition in Hc.
        destruct (IH (output ++ [top])) as (popped & kept & -> & Hpop & Hall & Hkept).
        exists (top :: popped), kept. rewrite Hpop, <- app_assoc.
        repeat split; [|assumption]. constructor; [now split | assumption].
      * exists [], (top :: below). rewrite app_nil_r.
        repeat split; [constructor|]. intros [_ H].
        apply pop_condition in H. congruence.
    + exists [], (top :: below). rewrite app_nil_r.
      repeat split; [constructor|]. intros [H _].
      apply TokenType_eqb_eq in H. congruence.
Qed.

(** ** Left parentheses on the operator stack *)

Lemma left_parens_cons top below :
  left_parens (top :: below) =
  ((if TokenType_eqb (type top) PAREN_LEFT then 1 else 0) + left_parens below)%nat.
Proof.
  unfold left_parens. cbn [filter].
  now destruct (TokenType_eqb (type top) PAREN_LEFT).
Qed.

Lemma pop_operators_left_parens t opStack : forall output opStack' output',
  Traced.pop_operators t opStack output = (opStack', output') ->
  left_parens opStack' = left_parens opStack.
Proof.
  induction opStack as [|top below IH]; intros output s' o' H;
    cbn [Traced.pop_operators] in H.
  - now injection H as <- _.
  - destruct (TokenType_eqb (type top) OPERATOR) eqn:Hty;
      [|now injection H as <- _].
    revert H. split_if; intros H; [|now injection H as <- _].
    apply IH in H. rewrite H, left_parens_cons.
    apply TokenType_eqb_eq in Hty. now rewrite Hty.
Qed.

Lemma pop_to_paren_left_parens opStack : forall output opStack' output',
  Traced.pop_to_paren opStack output = (opStack', output') ->
  match opStack' with
  | [] => left_parens opStack = O
  | top :: below =>
      type top = PAREN_LEFT /\ left_parens opStack = S (left_parens below)
  end.
Proof.
  induction opStack as [|top below IH]; intros output s' o' H;
    cbn [Traced.pop_to_paren] in H.
  - now injection H as <- _.
  - destruct (TokenType_eqb (type top) PAREN_LEFT) eqn:Hty; cbn [negb] in H.
    + injection H as <- _. rewrite left_parens_cons, Hty.
      apply TokenType_eqb_eq in Hty. now split.
    + apply IH in H. rewrite left_parens_cons, Hty. exact H.
Qed.

Lemma drain_left_parens opStack : forall output,
  match left_parens opStack with
  | O => exists postfix, Traced.drain opStack output = Ok postfix
  | S _ => Traced.drain opStack output = Throw unclosed_left
  end.
Proof.
  induction opStack as [|top below IH]; intros output.
  - cbn. now exists output.
  - rewrite left_parens_cons. cbn [Traced.drain].
    destruct (TokenType_eqb (type top) PAREN_LEFT); [reflexivity|].
    cbn [Nat.add]. apply IH.
Qed.

(** The main loop keeps as many left parentheses on the stack as are open in
    the tokens read so far, and throws when a right one finds none. *)
Lemma toPostfix_loop_parens tokens : forall opStack output,
  match paren_scan (left_parens opStack) tokens with
  | UnexpectedRight =>
      Traced.toPostfix_loop tokens opStack output = Throw unexpected_right
  | Balanced =>
      exists opStack' output',
        Traced.toPostfix_loop tokens opStack output = Ok (opStack', output') /\
        left_parens opStack' = O
  | UnclosedLeft =>
      exists opStack' output',
        Traced.toPostfix_loop tokens opStack output = Ok (opStack', output') /\
        left_parens opStack' <> O
  end.
Proof.
  induction tokens as [|tok tokens IH]; intros opStack output.
  - cbn. destruct (left_parens opStack) eqn:E;
      exists opStack, output; split; congruence.
  - cbn [paren_scan Traced.toPostfix_loop]. unfold Traced.toPostfix_body.
    destruct (type tok) eqn:Hty.
    + cbn [bind]. apply IH.
    + destruct (Traced.pop_operators tok opStack output) as [s' o'] eqn:Hp.
      cbn [bind]. apply pop_operators_left_parens in Hp.
      specialize (IH (tok :: s') o'). rewrite left_parens_cons, Hty in IH.
      cbn in IH. now rewrite Hp in IH.
    + cbn [bind]. specialize (IH (tok :: opStack) output).
      rewrite left_parens_cons, Hty in IH. exact IH.
    + destruct (Traced.pop_to_paren opStack output) as [s' o'] eqn:Hp.
      apply pop_to_paren_left_parens in Hp.
      destruct s' as [|top below].
      * rewrite Hp. reflexivity.
      * destruct Hp as [_ ->]. cbn [bind]. apply IH.
Qed.

(** ** Token kinds on the stack and in the output *)

Lemma Forall_snoc {A : Type} (P : A -> Prop) (l : list A) (x : A) :
  Forall P l -> P x -> Forall P (l ++ [x]).
Proof. intros Hl Hx. apply Forall_app. split; [assumption | now constructor]. Qed.

Lemma pop_operators_kinds t opStack : forall output opStack' output',
  Traced.pop_operators t opStack output = (opStack', output') ->
  Forall operator_or_left opStack -> Forall number_or_operator output ->
  Forall operator_or_left opStack' /\ Forall number_or_operator output'.
Proof.
  induction opStack as [|top below IH]; intros output s' o' H Hs Ho;
    cbn [Traced.pop_operators] in H.
  - injection H as <- <-. now split.
  - destruct (TokenType_eqb (type top) OPERATOR) eqn:Hty;
      [|injection H as <- <-; now split].
    revert H. split_if; intros H; [|injection H as <- <-; now split].
    inversion Hs; subst. apply IH in H; [assumption | assumption |].
    apply Forall_snoc; [assumption|]. right. now apply TokenType_eqb_eq.
Qed.

Lemma pop_to_paren_kinds opStack : forall output opStack' output',
  Traced.pop_to_paren opStack output = (opStack', output') ->
  Forall operator_or_left opStack -> Forall number_or_operator output ->
  Forall operator_or_left opStack' /\ Forall number_or_operator output'.
Proof.
  induction opStack as [|top below IH]; intros output s' o' H Hs Ho;
    cbn [Traced.pop_to_paren] in H.
  - injection H as <- <-. now split.
  - destruct (TokenType_eqb (type top) PAREN_LEFT) eqn:Hty; cbn [negb] in H;
      [injection H as <- <-; now split|].
    inversion Hs as [|? ? Htop Hbelow]; subst.
    apply IH in H; [assumption | assumption |].
    apply Forall_snoc; [assumption|]. right.
    destruct Htop as [Htop|Htop]; [assumption|].
    rewrite Htop in Hty. discriminate.
Qed.

Lemma toPostfix_loop_kinds tokens : forall opStack output opStack' output',
  Traced.toPostfix_loop tokens opStack output = Ok (opStack', output') ->
  Forall operator_or_left opStack -> Forall number_or_operator output ->
  Forall operator_or_left opStack' /\ Forall number_or_operator output'.
Proof.
  induction tokens as [|tok tokens IH]; intros opStack output s' o' H Hs Ho.
  - injection H as <- <-. now split.
  - cbn [Traced.toPostfix_loop] in H. unfold Traced.toPostfix_body in H.
    destruct (type tok) eqn:Hty.
    + cbn [bind] in H. apply IH in H; [assumption | assumption |].
      apply Forall_snoc; [assumption | now left].
    + destruct (Traced.pop_operators tok opStack output) as [s1 o1] eqn:Hp.
      cbn [bind] in H.
      destruct (pop_operators_kinds _ _ _ _ _ Hp Hs Ho) as [Hs1 Ho1].
      apply IH in H; [assumption | | assumption].
      constructor; [now left | assumption].
    + cbn [bind] in H. apply IH in H; [assumption | | assumption].
      constructor; [now right | assumption].
    + destruct (Traced.pop_to_paren opStack output) as [s1 o1] eqn:Hp.
      destruct (pop_to_paren_kinds _ _ _ _ Hp Hs Ho) as [Hs1 Ho1].
      destruct s1 as [|top below]; [discriminate|]. cbn [bind] in H.
      inversion Hs1; subst. now apply IH in H.
Qed.

Lemma drain_kinds opStack : forall output postfix,
  Traced.drain opStack output = Ok postfix ->
  Forall operator_or_left opStack -> Forall number_or_operator output ->
  Forall number_or_operator postfix.
Proof.
  induction opStack as [|top below IH]; intros output postfix H Hs Ho;
    cbn [Traced.drain] in H.
  - now injection H as <-.
  - destruct (TokenType_eqb (type top) PAREN_LEFT) eqn:Hty; [discriminate|].
    inversion Hs as [|? ? Htop Hbelow]; subst.
    apply IH in H; [assumption | assumption |].
    apply Forall_snoc; [assumption|]. right.
    destruct Htop as [Htop|Htop]; [assumption|].
    rewrite Htop in Hty. discriminate.
Qed.

End Reorderer.

(** * The evaluator: the trace is a side channel *)

Section Evaluator.
Context {lib : CxxLib}.

Lemma fst_bindIO {A B : Type} (m : IO A) (k : A -> IO B) (out : ostream) :
  fst (bindIO m k out) =
  match m out with
  | (Ok a, out') => fst (k a out')
  | (Throw e, _) => Throw e
  end.
Proof. unfold bindIO. now destruct (m out) as [[a|e] out']. Qed.

Lemma evaluatePostfix_body_erase tok st out :
  fst (Traced.evaluatePostfix_body tok st out) = Clean.evaluatePostfix_body tok st.
Proof.
  unfold Traced.evaluatePostfix_body, Clean.evaluatePostfix_body.
  destruct (type tok); try reflexivity.
  destruct (op tok =? "u")%char; [now destruct st|].
  destruct (op tok =? "%")%char; [now destruct st|].
  destruct st as [|y [|x st']]; try reflexivity.
  unfold bindIO, lift.
  change (Clean.applyOperation x y (op tok)) with (Traced.applyOperation x y (op tok)).
  now destruct (Traced.applyOperation x y (op tok)).
Qed.

Lemma evaluatePostfix_loop_erase postfix : forall st out,
  fst (Traced.evaluatePostfix_loop postfix st out) =
  Clean.evaluatePostfix_loop postfix st.
Proof.
  induction postfix as [|tok postfix IH]; intros st out; [reflexivity|].
  cbn [Traced.evaluatePostfix_loop Clean.evaluatePostfix_loop].
  rewrite fst_bindIO, <- (evaluatePostfix_body_erase tok st out).
  destruct (Traced.evaluatePostfix_body tok st out) as [[st'|e] out'];
    cbn [fst bind]; [apply IH | reflexivity].
Qed.

Lemma evaluatePostfix_erase postfix out :
  fst (Traced.evaluatePostfix postfix out) = Clean.evaluatePostfix postfix.
Proof.
  unfold Traced.evaluatePostfix, Clean.evaluatePostfix.
  rewrite fst_bindIO, <- (evaluatePostfix_loop_erase postfix [] out).
  destruct (Traced.evaluatePostfix_loop postfix [] out) as [[st|e] out'];
    cbn [fst bind]; [|reflexivity].
  now destruct st as [|top [|]].
Qed.

(** [debug] only prints. *)
Lemma debug_loop_returns tokens : forall out,
  exists out', Traced.debug_loop tokens out = (Ok tt, out').
Proof.
  induction tokens as [|tok tokens IH]; intros out; [now exists out|].
  cbn [Traced.debug_loop]. unfold bindIO, Traced.debug_token.
  destruct (type tok); cbn; apply IH.
Qed.

Lemma debug_returns tokens stage out :
  exists out', Traced.debug tokens stage out = (Ok tt, out').
Proof.
  unfold Traced.debug, bindIO. cbn [print].
  destruct (debug_loop_returns tokens
              (out ++ [Text (nl ++ "--- Debug: "); Text stage; Text (" ---" ++ nl)]))
    as [out' ->].
  eexists. reflexivity.
Qed.

(** The value of the traced pipeline, computed without the trace. *)
Lemma evaluateExpr_erase expr out :
  fst (Traced.evaluateExpr expr out) =
    tokens <- Traced.tokenize expr ;;
    postfix <- Traced.toPostfix tokens ;;
    Clean.evaluatePostfix postfix.
Proof.
  unfold Traced.evaluateExpr. rewrite fst_bindIO. unfold lift at 1.
  destruct (Traced.tokenize expr) as [tokens|e]; [|reflexivity]. cbn [bind].
  rewrite fst_bindIO.
  destruct (debug_returns tokens "After Tokenization" out) as [out1 ->].
  rewrite fst_bindIO. unfold lift at 1.
  destruct (Traced.toPostfix tokens) as [postfix|e]; [|reflexivity]. cbn [bind].
  rewrite fst_bindIO.
  destruct (debug_returns postfix "Postfix Conversion" out1) as [out2 ->].
  apply evaluatePostfix_erase.
Qed.

Lemma evaluate_erase expr :
  Traced.evaluate expr =
    tokens <- tokenize_from expr 0 [] ;;
    postfix <- Traced.toPostfix tokens ;;
    Clean.evaluatePostfix postfix.
Proof. unfold Traced.evaluate. apply evaluateExpr_erase. Qed.

End Evaluator.

(** Reads the expression left to right with [tokenize_from_unfold], using
    what is known of [stod]. *)
Ltac lex :=
  rewrite evaluate_erase;
  repeat (rewrite tokenize_from_unfold;
          cbn -[stod tokenize_from Nat.add];
          repeat match goal with
                 | H : stod _ = _ |- _ => rewrite H
                 end;
          cbn [bind]);
  rewrite ?tokenize_from_empty.

(** * Properties of the pipeline *)

Section BinaryExpression.
Context {lib : CxxLib}.

Lemma is_literal_parts s :
  is_literal s = true ->
  all numchar s = true /\ begins_number s = true /\ (1 <? dots s)%nat = false.
Proof.
  unfold is_literal. intros H.
  apply andb_prop in H as [H Hd]. apply andb_prop in H as [Hb Ha].
  repeat split; try assumption.
  apply Nat.leb_le in Hd. apply Nat.ltb_ge. exact Hd.
Qed.

Lemma space_not_numchar c : isspace c = true -> numchar c = false.
Proof.
  intros H. destruct (numchar c) eqn:E; [|reflexivity].
  apply numchar_not_space in E. congruence.
Qed.

Lemma tokenize_from_literal a tail i tokens x :
  is_literal a = true -> starts_with numchar tail = false -> stod a = Ok x ->
  tokenize_from (a ++ tail) i tokens =
  tokenize_from tail (i + String.length a) (tokens ++ [mkToken NUMBER x NUL]).
Proof.
  intros Ha Htail Hx. apply is_literal_parts in Ha as (Hall & Hbeg & Hd).
  now rewrite tokenize_from_number, Hd, Hx by assumption.
Qed.

(** The tokens of [a op b]. *)
Lemma tokenize_binary a b w1 w2 c x y :
  is_literal a = true -> is_literal b = true ->
  all isspace w1 = true -> all isspace w2 = true ->
  stod a = Ok x -> stod b = Ok y ->
  In c ["+"; "-"; "*"; "/"; "^"]%char ->
  tokenize_from (a ++ w1 ++ String c (w2 ++ b)) 0 [] =
  Ok [mkToken NUMBER x NUL; mkToken OPERATOR 0 c; mkToken NUMBER y NUL].
Proof.
  intros Ha Hb Hw1 Hw2 Hx Hy Hc.
  assert (Hcn : numchar c = false).
  { cbn [In] in Hc. destruct Hc as [<-|[<-|[<-|[<-|[<-|[]]]]]]; reflexivity. }
  rewrite (tokenize_from_literal a _ 0 [] x Ha); [|
    destruct w1 as [|d w1]; cbn [append starts_with]; [assumption|];
    cbn [all] in Hw1; apply andb_prop in Hw1 as [Hd _];
    now apply space_not_numchar | assumption].
  rewrite tokenize_from_spaces by assumption. cbn [app].
  assert (Hop : forall i,
            tokenize_from (String c (w2 ++ b)) (0 + String.length a + i) [mkToken NUMBER x NUL] =
            tokenize_from (w2 ++ b) (S (0 + String.length a + i))
              [mkToken NUMBER x NUL; mkToken OPERATOR 0 c]).
  { intros i. destruct (Ascii.eqb_spec c "-") as [->|Hne].
    - rewrite tokenize_from_minus.
      destruct a as [|a0 a']; [discriminate|]. reflexivity.
    - apply (tokenize_from_operator c).
      cbn [In] in *. intuition congruence. }
  rewrite Hop, tokenize_from_spaces by assumption.
  pose proof (tokenize_from_literal b "" (S (0 + String.length a + String.length w1)
                + String.length w2)
                [mkToken NUMBER x NUL; mkToken OPERATOR 0 c] y Hb eq_refl Hy) as E.
  rewrite append_empty_r in E. rewrite E. apply tokenize_from_empty.
Qed.

End BinaryExpression.

(** C1: for unsigned decimal literals [a] and [b] whose values [std::stod]
    returns as [x] and [y], the pipeline on [a op b] (any white space, or
    none, around the operator) returns [x + y], [x - y], [x * y], [pow x y],
    and for [/] returns [x / y] unless [y == 0], where it throws
    "Division by zero!". *)
Theorem C1_binary_expression (lib : CxxLib) (a b w1 w2 : string) (x y : float) :
  is_literal a = true -> is_literal b = true ->
  all isspace w1 = true -> all isspace w2 = true ->
  stod a = Ok x -> stod b = Ok y ->
  Traced.evaluate (a ++ w1 ++ "+" ++ w2 ++ b) = Ok (x + y)%float /\
  Traced.evaluate (a ++ w1 ++ "-" ++ w2 ++ b) = Ok (x - y)%float /\
  Traced.evaluate (a ++ w1 ++ "*" ++ w2 ++ b) = Ok (x * y)%float /\
  Traced.evaluate (a ++ w1 ++ "/" ++ w2 ++ b) =
    (if (y =? 0)%float then Throw division_by_zero else Ok (x / y)%float) /\
  Traced.evaluate (a ++ w1 ++ "^" ++ w2 ++ b) = Ok (pow x y).
Proof.
  intros Ha Hb Hw1 Hw2 Hx Hy.
  repeat split; rewrite evaluate_erase; cbn [append];
    rewrite (tokenize_binary a b w1 w2 _ x y Ha Hb Hw1 Hw2 Hx Hy)
      by (cbn; tauto);
    try reflexivity.
  lazy. now destruct (PrimFloat.eqb y 0).
Qed.

Lemma C1_binary_expression_witness :
  (is_literal "1.5" = true /\ is_literal "2" = true /\
   all isspace " " = true /\ all isspace "" = true /\
   @stod ref_lib "1.5" = Ok 1.5%float /\ @stod ref_lib "2" = Ok 2%float) /\
  @Traced.evaluate ref_lib "1.5 +2" = Ok 3.5%float /\
  @Traced.evaluate ref_lib "1.5 /2" = Ok 0.75%float.
Proof.
  split; [repeat split; reflexivity|].
  destruct (C1_binary_expression ref_lib "1.5" "2" " " "" 1.5%float 2%float
              eq_refl eq_refl eq_refl eq_refl eq_refl eq_refl)
    as (Hadd & _ & _ & Hdiv & _).
  split; [exact Hadd | exact Hdiv].
Defined.

(** C1 cannot drop the condition on [std::stod]. With [ref_lib], whose [stod]
    reports a numeral beyond the range of [double] as [std::stod] does, the
    literal [overflowing] makes the line [overflowing + 1] end with
    [std::out_of_range]: no value, and no division by zero. So it is not
    true that every [a + b] over literals evaluates to a value. *)
Lemma C1_overflowing_literal :
  is_literal overflowing = true /\ is_literal "1" = true /\
  @stod ref_lib overflowing = Throw (out_of_range "stod") /\
  @Traced.evaluate ref_lib (overflowing ++ " + " ++ "1") =
    Throw (out_of_range "stod") /\
  ~ (forall a b : string,
       is_literal a = true -> is_literal b = true ->
       exists v, @Traced.evaluate ref_lib (a ++ " + " ++ b) = Ok v).
Proof.
  assert (Ha : is_literal overflowing = true) by (vm_compute; reflexivity).
  assert (He : @Traced.evaluate ref_lib (overflowing ++ " + " ++ "1") =
               Throw (out_of_range "stod")) by (vm_compute; reflexivity).
  repeat split; try assumption; try (vm_compute; reflexivity).
  intros H. destruct (H overflowing "1" Ha eq_refl) as [v Hv].
  rewrite He in Hv. discriminate.
Qed.

(** C2: when an OPERATOR token [t] arrives, [toPostfix] moves from the stack
    to the output the longest run of operators on top that have a higher
    precedence than [t], or the same precedence when [t] is not
    right-associative, and then pushes [t]; for a right-associative [t] an
    operator leaves only on a strictly higher precedence. So ["2^3^2"] is
    [pow 2 (pow 3 2)]: 512 and not 64, for a [pow] exact on these powers. *)
Theorem C2_operator_popping (lib : CxxLib) (t : Token)
    (opStack output : list Token) :
  type t = OPERATOR ->
  stod "2" = Ok 2%float -> stod "3" = Ok 3%float ->
  pow 3 2 = 9%float -> pow 2 9 = 512%float ->
  (exists popped kept,
     opStack = popped ++ kept /\
     Forall (fun top => type top = OPERATOR /\ pops_before top t) popped /\
     match kept with
     | [] => True
     | top :: _ => ~ (type top = OPERATOR /\ pops_before top t)
     end /\
     Traced.toPostfix_body t opStack output = Ok (t :: kept, output ++ popped)) /\
  (Traced.isRightAssociative (op t) = true ->
   forall top, pops_before top t <->
               (Traced.precedence (op top) > Traced.precedence (op t))%Z) /\
  Traced.evaluate "2^3^2" = Ok (pow 2 (pow 3 2)) /\
  Traced.evaluate "2^3^2" = Ok 512%float /\
  Traced.evaluate "2^3^2" <> Ok 64%float.
Proof.
  intros Hty H2 H3 Hp32 Hp29.
  assert (E : Traced.evaluate "2^3^2" = Ok (pow 2 (pow 3 2))) by (lex; reflexivity).
  split; [|split; [|split; [|split]]].
  - destruct (pop_operators_spec t opStack output)
      as (popped & kept & Hsplit & Hpop & Hall & Hkept).
    exists popped, kept. repeat split; try assumption.
    unfold Traced.toPostfix_body. now rewrite Hty, Hpop.
  - intros Hra top. unfold pops_before. split; [|now left].
    intros [H|[_ H]]; [assumption | congruence].
  - exact E.
  - now rewrite E, Hp32, Hp29.
  - rewrite E, Hp32, Hp29. intros H.
    pose proof (f_equal (fun r => match r with
                                  | Ok v => PrimFloat.ltb 64 v
                                  | Throw _ => false
                                  end) H) as F.
    vm_compute in F. discriminate.
Qed.

Lemma C2_operator_popping_witness :
  (@stod ref_lib "2" = Ok 2%float /\ @stod ref_lib "3" = Ok 3%float /\
   @pow ref_lib 3 2 = 9%float /\ @pow ref_lib 2 9 = 512%float) /\
  Traced.toPostfix_body (mkToken OPERATOR 0 "^")
    [mkToken OPERATOR 0 "^"; mkToken OPERATOR 0 "+"] [] =
    Ok ([mkToken OPERATOR 0 "^"; mkToken OPERATOR 0 "^"; mkToken OPERATOR 0 "+"], []) /\
  @Traced.evaluate ref_lib "2^3^2" = Ok 512%float.
Proof.
  split; [repeat split; reflexivity|].
  destruct (C2_operator_popping ref_lib (mkToken OPERATOR 0 "^")
              [mkToken OPERATOR 0 "^"; mkToken OPERATOR 0 "+"] []
              eq_refl eq_refl eq_refl eq_refl eq_refl)
    as (_ & _ & _ & H & _).
  split; [reflexivity | exact H].
Defined.

(** C3: the lexer reads a ['-'] as the unary minus ['u'] exactly where
    nothing but white space comes before it or the token emitted last is an
    OPERATOR (['u'] and ['%'] among them) or a PAREN_LEFT, and as the binary
    ['-'] everywhere else; what comes before the ['-'] is lexed as it is on
    its own. So ["--5"] and ["3 - -2"] both evaluate to 5. *)
Theorem C3_unary_minus (lib : CxxLib) (pre post : string) :
  stod "5" = Ok 5%float -> stod "3" = Ok 3%float -> stod "2" = Ok 2%float ->
  Traced.tokenize (pre ++ "-" ++ post) =
    (tokens <- Traced.tokenize pre ;;
     tokenize_from post (S (String.length pre))
       (tokens ++ [if unary_position pre tokens
                   then mkToken OPERATOR 0 "u"
                   else mkToken OPERATOR 0 "-"])) /\
  Traced.evaluate "--5" = Ok 5%float /\
  Traced.evaluate "3 - -2" = Ok 5%float.
Proof.
  intros H5 H3 H2. split; [|split].
  - rewrite !tokenize_from_start. cbn [append].
    rewrite (tokenize_from_app (String.length pre)) by (apply le_n || reflexivity).
    destruct (tokenize_from pre 0 []) as [tokens|e] eqn:E; [|reflexivity].
    cbn [bind Nat.add]. rewrite tokenize_from_minus.
    unfold unary_position. now rewrite <- (tokenize_first_content pre tokens E).
  - lex. vm_compute. reflexivity.
  - lex. vm_compute. reflexivity.
Qed.

Lemma C3_unary_minus_witness :
  (@stod ref_lib "5" = Ok 5%float /\ @stod ref_lib "3" = Ok 3%float /\
   @stod ref_lib "2" = Ok 2%float) /\
  @Traced.tokenize ref_lib "3 - -2" =
    Ok [mkToken NUMBER 3 NUL; mkToken OPERATOR 0 "-";
        mkToken OPERATOR 0 "u"; mkToken NUMBER 2 NUL] /\
  @Traced.evaluate ref_lib "3 - -2" = Ok 5%float.
Proof.
  split; [repeat split; reflexivity|].
  destruct (C3_unary_minus ref_lib "3 - " "2" eq_refl eq_refl eq_refl)
    as (Hlex & _ & Heval).
  split; [etransitivity; [exact Hlex | reflexivity] | exact Heval].
Defined.

(** C4: on a ['%'] token [evaluatePostfix] throws "missing operand for '%'"
    when the stack is empty, and otherwise replaces the top [x] by [x / 100],
    leaving the rest of the stack as it is: one operand, no modulo. So
    ["50%"] is 0.5 and ["50%+1"] is 1.5. *)
Theorem C4_percent (lib : CxxLib) (tok : Token) (st : list float)
    (out : ostream) :
  type tok = OPERATOR -> op tok = "%"%char ->
  stod "50" = Ok 50%float -> stod "1" = Ok 1%float ->
  fst (Traced.evaluatePostfix_body tok st out) =
    match st with
    | [] => Throw missing_percent_operand
    | x :: st' => Ok ((x / 100)%float :: st')
    end /\
  Traced.evaluate "50%" = Ok 0.5%float /\
  Traced.evaluate "50%+1" = Ok 1.5%float.
Proof.
  intros Hty Hop H50 H1. split; [|split].
  - unfold Traced.evaluatePostfix_body. rewrite Hty, Hop.
    now destruct st.
  - lex. vm_compute. reflexivity.
  - lex. vm_compute. reflexivity.
Qed.

Lemma C4_percent_witness :
  (@stod ref_lib "50" = Ok 50%float /\ @stod ref_lib "1" = Ok 1%float) /\
  fst (@Traced.evaluatePostfix_body ref_lib (mkToken OPERATOR 0 "%")
         [50%float; 7%float] []) = Ok [0.5%float; 7%float] /\
  @Traced.evaluate ref_lib "50%+1" = Ok 1.5%float.
Proof.
  split; [split; reflexivity|].
  destruct (C4_percent ref_lib (mkToken OPERATOR 0 "%") [50%float; 7%float] []
              eq_refl eq_refl eq_refl eq_refl) as (Hbody & _ & Heval).
  split; [rewrite Hbody; reflexivity | exact Heval].
Defined.

(** C5: [precedence] ranks ['+'] and ['-'] 1, ['*'] and ['/'] 2, the unary
    minus ['u'] 3, ['^'] 4 and ['%'] 5, and every other character 0;
    [isRightAssociative] holds of ['^'], ['u'] and ['%'] and of nothing else,
    so not of ['+'], ['-'], ['*'], ['/']. Both files have the same table. *)
Theorem C5_operator_table :
  Traced.precedence "+" = 1%Z /\ Traced.precedence "-" = 1%Z /\
  Traced.precedence "*" = 2%Z /\ Traced.precedence "/" = 2%Z /\
  Traced.precedence "u" = 3%Z /\ Traced.precedence "^" = 4%Z /\
  Traced.precedence "%" = 5%Z /\
  (forall c, ~ In c ["+"; "-"; "*"; "/"; "u"; "^"; "%"]%char ->
             Traced.precedence c = 0%Z) /\
  (forall c, Traced.isRightAssociative c = true <-> In c ["^"; "u"; "%"]%char) /\
  Forall (fun c => Traced.isRightAssociative c = false) ["+"; "-"; "*"; "/"]%char /\
  (forall c, Clean.precedence c = Traced.precedence c /\
             Clean.isRightAssociative c = Traced.isRightAssociative c).
Proof.
  repeat match goal with |- _ /\ _ => split end; try reflexivity.
  - intros c Hc. cbn [In] in Hc.
    destruct c as [[] [] [] [] [] [] [] []]; try reflexivity;
      exfalso; apply Hc; tauto.
  - intros c. unfold Traced.isRightAssociative. cbn [In].
    rewrite !orb_true_iff, !Ascii.eqb_eq. intuition congruence.
  - repeat constructor.
  - intros c. split; reflexivity.
Qed.

(** C6: [toPostfix] throws "unexpected ')'" exactly when, reading the tokens
    left to right, a PAREN_RIGHT comes with no PAREN_LEFT open; it throws
    "unclosed '('" exactly when that never happens and a PAREN_LEFT is still
    open at the end; on every other token sequence it returns a postfix
    sequence. It throws nothing else. *)
Theorem C6_parenthesis_errors (tokens : list Token) :
  match paren_scan 0 tokens with
  | UnexpectedRight => Traced.toPostfix tokens = Throw unexpected_right
  | UnclosedLeft => Traced.toPostfix tokens = Throw unclosed_left
  | Balanced => exists postfix, Traced.toPostfix tokens = Ok postfix
  end.
Proof.
  unfold Traced.toPostfix.
  pose proof (toPostfix_loop_parens tokens [] []) as H.
  change (left_parens []) with O in H.
  destruct (paren_scan 0 tokens).
  - destruct H as (s & o & -> & Hs). cbn [bind].
    pose proof (drain_left_parens s o) as Hd. now rewrite Hs in Hd.
  - now rewrite H.
  - destruct H as (s & o & -> & Hs). cbn [bind].
    pose proof (drain_left_parens s o) as Hd.
    destruct (left_parens s); [congruence | exact Hd].
Qed.

(** C7: when the pass of [evaluatePostfix] over the postfix sequence ends
    without a throw, leaving the stack [st], the function returns the value
    on the stack if [st] holds exactly one, and throws "malformed expression
    or missing operators" for every other size of [st]; the trace written by
    the pass is kept either way. So ["1 2"] fails with that error. *)
Theorem C7_final_stack (lib : CxxLib) (postfix : list Token)
    (st : list float) (out out' : ostream) (x1 x2 : float) :
  Traced.evaluatePostfix_loop postfix [] out = (Ok st, out') ->
  stod "1" = Ok x1 -> stod "2" = Ok x2 ->
  (forall top, st = [top] -> Traced.evaluatePostfix postfix out = (Ok top, out')) /\
  (List.length st <> 1%nat ->
   Traced.evaluatePostfix postfix out = (Throw malformed, out')) /\
  Traced.evaluate "1 2" = Throw malformed.
Proof.
  intros Hloop H1 H2. split; [|split].
  - intros top ->. unfold Traced.evaluatePostfix, bindIO. now rewrite Hloop.
  - intros Hlen. unfold Traced.evaluatePostfix, bindIO. rewrite Hloop.
    destruct st as [|top [|]]; try reflexivity. now contradiction Hlen.
  - lex. reflexivity.
Qed.

Lemma C7_final_stack_witness :
  (@Traced.evaluatePostfix_loop ref_lib
     [mkToken NUMBER 1 NUL; mkToken NUMBER 2 NUL] [] [] =
     (Ok [2%float; 1%float],
      [Text (nl ++ "Push "); Dbl 1; Text (" onto stack" ++ nl);
       Text (nl ++ "Push "); Dbl 2; Text (" onto stack" ++ nl)]) /\
   @stod ref_lib "1" = Ok 1%float /\ @stod ref_lib "2" = Ok 2%float) /\
  fst (@Traced.evaluatePostfix ref_lib
         [mkToken NUMBER 1 NUL; mkToken NUMBER 2 NUL] []) = Throw malformed /\
  @Traced.evaluate ref_lib "1 2" = Throw malformed.
Proof.
  split; [repeat split; reflexivity|].
  destruct (C7_final_stack ref_lib [mkToken NUMBER 1 NUL; mkToken NUMBER 2 NUL]
              [2%float; 1%float] [] _ 1%float 2%float eq_refl eq_refl eq_refl)
    as (_ & Hsize & Heval).
  split; [rewrite Hsize; [reflexivity | discriminate] | exact Heval].
Defined.

(** C8: where the text under the cursor is a longest run of digits and ['.']
    that opens with a digit, or with ['.'] and a digit, the inner loop of
    [tokenize] consumes the whole run: with at most one ['.'] in it, the run
    goes to [std::stod] and becomes one NUMBER token, and the lexer goes on
    right after it; with a second ['.'] the lexer throws "multiple decimal
    points". So ["1..2"] fails with that error. *)
Theorem C8_number_literal (lib : CxxLib) (run tail : string) (i : nat)
    (tokens : list Token) :
  all numchar run = true -> begins_number run = true ->
  starts_with numchar tail = false ->
  Traced.scan_number (run ++ tail) i "" false =
    (if (dots run <=? 1)%nat
     then Ok (run, (i + String.length run)%nat, tail)
     else Throw multiple_decimal_points) /\
  tokenize_from (run ++ tail) i tokens =
    (if (dots run <=? 1)%nat
     then v <- stod run ;;
          tokenize_from tail (i + String.length run)
            (tokens ++ [mkToken NUMBER v NUL])
     else Throw multiple_decimal_points) /\
  Traced.evaluate "1..2" = Throw multiple_decimal_points.
Proof.
  intros Hall Hbegin Htail. split; [|split].
  - rewrite (scan_number_run run tail i "" false Hall Htail).
    now rewrite Nat.add_0_r.
  - rewrite (tokenize_from_number run tail i tokens Hall Hbegin Htail).
    now destruct (dots run) as [|[|n]].
  - reflexivity.
Qed.

Lemma C8_number_literal_witness :
  (all numchar "1.5" = true /\ begins_number "1.5" = true /\
   starts_with numchar "+2" = false) /\
  Traced.scan_number "1.5+2" 0 "" false = Ok ("1.5", 3%nat, "+2") /\
  @Traced.evaluate ref_lib "1..2" = Throw multiple_decimal_points.
Proof.
  split; [repeat split; reflexivity|].
  destruct (C8_number_literal ref_lib "1.5" "+2" 0 [] eq_refl eq_refl eq_refl)
    as (Hscan & _ & Heval).
  split; [exact Hscan | exact Heval].
Defined.

(** C9: on every expression, and whatever is already on [std::cout], the
    calculator of src/main.cpp yields what the calculator of
    src/clean/main.cpp yields: the same value, or the same exception. The
    two lexers and the two reorderers are the same functions, and the trace
    of the evaluator never feeds back into the stack. *)
Theorem C9_traced_is_clean (lib : CxxLib) (expr : string) (out : ostream) :
  fst (Traced.evaluateExpr expr out) = Clean.evaluateExpr expr /\
  Traced.tokenize expr = Clean.tokenize expr /\
  (forall tokens, Traced.toPostfix tokens = Clean.toPostfix tokens) /\
  (forall postfix, fst (Traced.evaluatePostfix postfix out) =
                   Clean.evaluatePostfix postfix).
Proof.
  split; [|split; [|split]].
  - rewrite evaluateExpr_erase. reflexivity.
  - reflexivity.
  - reflexivity.
  - intros postfix. apply evaluatePostfix_erase.
Qed.

(** C10: a postfix sequence returned by [toPostfix] holds only NUMBER and
    OPERATOR tokens, so no parenthesis; [evaluatePostfix] has no branch for a
    parenthesis and would pass over one, leaving stack and trace as they
    are. *)
Theorem C10_postfix_has_no_parenthesis (lib : CxxLib)
    (tokens postfix : list Token) (paren : Token) (st : list float)
    (out : ostream) :
  Traced.toPostfix tokens = Ok postfix ->
  type paren = PAREN_LEFT \/ type paren = PAREN_RIGHT ->
  Forall number_or_operator postfix /\
  ~ In paren postfix /\
  Traced.evaluatePostfix_body paren st out = (Ok st, out).
Proof.
  intros Hpost Hparen.
  assert (Hall : Forall number_or_operator postfix).
  { unfold Traced.toPostfix in Hpost.
    destruct (Traced.toPostfix_loop tokens [] []) as [[s o]|e] eqn:Hloop;
      [|discriminate].
    cbn [bind] in Hpost.
    destruct (toPostfix_loop_kinds _ _ _ _ _ Hloop (Forall_nil _) (Forall_nil _))
      as [Hs Ho].
    exact (drain_kinds _ _ _ Hpost Hs Ho). }
  split; [exact Hall | split].
  - intros Hin. rewrite Forall_forall in Hall. apply Hall in Hin.
    destruct Hin as [H|H], Hparen as [H'|H']; congruence.
  - unfold Traced.evaluatePostfix_body.
    now destruct Hparen as [-> | ->].
Qed.

Lemma C10_postfix_has_no_parenthesis_witness :
  (Traced.toPostfix [mkToken PAREN_LEFT 0 NUL; mkToken NUMBER 1 NUL;
                     mkToken OPERATOR 0 "+"; mkToken NUMBER 2 NUL;
                     mkToken PAREN_RIGHT 0 NUL] =
     Ok [mkToken NUMBER 1 NUL; mkToken NUMBER 2 NUL; mkToken OPERATOR 0 "+"] /\
   (type (mkToken PAREN_LEFT 0 NUL) = PAREN_LEFT \/
    type (mkToken PAREN_LEFT 0 NUL) = PAREN_RIGHT)) /\
  Forall number_or_operator
    [mkToken NUMBER 1 NUL; mkToken NUMBER 2 NUL; mkToken OPERATOR 0 "+"] /\
  @Traced.evaluatePostfix_body ref_lib (mkToken PAREN_LEFT 0 NUL) [1%float] [] =
    (Ok [1%float], []).
Proof.
  split; [split; [reflexivity | left; reflexivity]|].
  destruct (C10_postfix_has_no_parenthesis ref_lib
              [mkToken PAREN_LEFT 0 NUL; mkToken NUMBER 1 NUL;
               mkToken OPERATOR 0 "+"; mkToken NUMBER 2 NUL;
               mkToken PAREN_RIGHT 0 NUL]
              [mkToken NUMBER 1 NUL; mkToken NUMBER 2 NUL; mkToken OPERATOR 0 "+"]
              (mkToken PAREN_LEFT 0 NUL) [1%float] []
              eq_refl (or_introl eq_refl)) as (Hall & _ & Hskip).
  split; [exact Hall | exact Hskip].
Defined.

(** * Further properties of the lexer *)

Section LexerContext.
Context {lib : CxxLib}.

(** The inner loop at another cursor: the same text, the same advance. *)
Lemma scan_number_shift s : forall i numStr hasDecimal,
  match Traced.scan_number s i numStr hasDecimal with
  | Ok (numStr', i', r) =>
      exists k, i' = (i + k)%nat /\
        forall j, Traced.scan_number s j numStr hasDecimal =
                  Ok (numStr', (j + k)%nat, r)
  | Throw e => forall j, Traced.scan_number s j numStr hasDecimal = Throw e
  end.
Proof.
  induction s as [|d s IH]; intros i ns h.
  - cbn. exists O. split; [lia|]. intros j. now rewrite Nat.add_0_r.
  - cbn [Traced.scan_number]. fold (numchar d). destruct (numchar d).
    + assert (Hstep : forall ns' h',
        match Traced.scan_number s (S i) ns' h' with
        | Ok (numStr', i', r) =>
            exists k, i' = (i + k)%nat /\
              forall j, Traced.scan_number s (S j) ns' h' =
                        Ok (numStr', (j + k)%nat, r)
        | Throw e => forall j, Traced.scan_number s (S j) ns' h' = Throw e
        end).
      { intros ns' h'. specialize (IH (S i) ns' h').
        destruct (Traced.scan_number s (S i) ns' h') as [[[n1 i1] r1]|e].
        - destruct IH as (k & -> & Hk). exists (S k). split; [lia|].
          intros j. rewrite (Hk (S j)). do 2 f_equal. f_equal. lia.
        - intros j. apply IH. }
      destruct (d =? ".")%char; [destruct h; [reflexivity|]|]; apply Hstep.
    + exists O. split; [lia|]. intros j. now rewrite Nat.add_0_r.
Qed.

Lemma minus_context_snoc tokens t :
  minus_context (tokens ++ [t]) =
  TokenType_eqb (type t) OPERATOR || TokenType_eqb (type t) PAREN_LEFT.
Proof.
  unfold minus_context, back_has_type. rewrite back_app, empty_app.
  cbn [empty]. now rewrite andb_false_r.
Qed.

Lemma same_lexemes_snoc tokens1 tokens2 t r1 r2 :
  same_lexemes (tokens1 ++ [t]) (tokens2 ++ [t]) r1 r2 ->
  same_lexemes tokens1 tokens2 r1 r2.
Proof.
  unfold same_lexemes. destruct r1, r2; try tauto.
  intros (new & -> & ->). exists (t :: new). now rewrite <- !app_assoc.
Qed.

(** The test on ['-'] in a state the lexer reaches, where the cursor is 0
    only before the first token. *)
Lemma minus_test i tokens :
  (i = O -> tokens = []) ->
  (i =? 0)%nat || empty tokens || back_has_type tokens OPERATOR ||
  back_has_type tokens PAREN_LEFT = minus_context tokens.
Proof.
  intros H. unfold minus_context. destruct i; [|reflexivity].
  now rewrite (H eq_refl).
Qed.

(** The lexer looks at the tokens emitted so far only to classify a ['-'],
    and at the cursor not at all. *)
Lemma tokenize_from_same n : forall rest i j tokens1 tokens2,
  (String.length rest <= n)%nat ->
  (i = O -> tokens1 = []) -> (j = O -> tokens2 = []) ->
  minus_context tokens1 = minus_context tokens2 ->
  same_lexemes tokens1 tokens2
    (tokenize_from rest i tokens1) (tokenize_from rest j tokens2).
Proof.
  induction n as [|n IH]; intros rest i j t1 t2 Hlen Hi Hj Hctx.
  - destruct rest; [|cbn in Hlen; lia]. rewrite !tokenize_from_empty.
    exists []. now rewrite !app_nil_r.
  - destruct rest as [|c rest'].
    { rewrite !tokenize_from_empty. exists []. now rewrite !app_nil_r. }
    cbn [String.length] in Hlen.
    assert (Hl : (String.length rest' <= n)%nat) by lia.
    assert (Hpush : forall r i' j' t, (String.length r <= n)%nat ->
              same_lexemes t1 t2
                (tokenize_from r (S i') (t1 ++ [t]))
                (tokenize_from r (S j') (t2 ++ [t]))).
    { intros r i' j' t Hr. apply (same_lexemes_snoc _ _ t).
      apply IH; try assumption; try discriminate.
      now rewrite !minus_context_snoc. }
    rewrite (tokenize_from_unfold c rest' i), (tokenize_from_unfold c rest' j).
    rewrite (minus_test i t1 Hi), (minus_test j t2 Hj), Hctx.
    repeat split_if; try (now apply Hpush).
    + apply IH; try assumption; discriminate.
    + pose proof (scan_number_shift (String c rest') i "" false) as Hs.
      destruct (Traced.scan_number (String c rest') i "" false)
        as [[[ns i'] r]|e] eqn:Hscan.
      * destruct Hs as (k & -> & Hk). rewrite (Hk j). cbn [bind].
        destruct (stod ns); cbn [bind]; [|reflexivity].
        pose proof (scan_number_progress _ _ _ _ _ _ Heqb1 Hscan) as Hr.
        pose proof (scan_number_cursor _ _ _ _ _ _ _ Hscan) as Hcur.
        cbn [String.length] in Hcur.
        destruct k as [|k]; [lia|].
        replace (i + S k)%nat with (S (i + k)) by lia.
        replace (j + S k)%nat with (S (j + k)) by lia.
        apply Hpush. lia.
      * rewrite (Hs j). reflexivity.
    + reflexivity.
Qed.

(** Before the first token the cursor does not matter. *)
Lemma tokenize_from_any_cursor rest i j :
  tokenize_from rest i [] = tokenize_from rest j [].
Proof.
  pose proof (tokenize_from_same _ rest i j [] [] (le_n _)
                (fun _ => eq_refl) (fun _ => eq_refl) eq_refl) as H.
  unfold same_lexemes in H.
  destruct (tokenize_from rest i []), (tokenize_from rest j []); try tauto.
  - destruct H as (new & -> & ->). reflexivity.
  - now subst.
Qed.

(** After an operator or a left parenthesis the lexer goes on as it does at
    the start of an expression. *)
Lemma tokenize_from_fresh rest j tokens t0 :
  type t0 = OPERATOR \/ type t0 = PAREN_LEFT ->
  tokenize_from rest (S j) (tokens ++ [t0]) =
    r <- tokenize_from rest 0 [] ;; Ok (tokens ++ t0 :: r).
Proof.
  intros Ht0.
  assert (Hctx : minus_context (tokens ++ [t0]) = minus_context []).
  { rewrite minus_context_snoc. destruct Ht0 as [-> | ->]; reflexivity. }
  pose proof (tokenize_from_same _ rest (S j) 0 (tokens ++ [t0]) []
                (le_n _) ltac:(discriminate) (fun _ => eq_refl) Hctx) as H.
  unfold same_lexemes in H.
  destruct (tokenize_from rest (S j) (tokens ++ [t0])),
           (tokenize_from rest 0 []); try tauto; cbn [bind].
  - destruct H as (new & -> & ->). now rewrite <- app_assoc.
  - now subst.
Qed.

End LexerContext.

Section LexerResults.
Context {lib : CxxLib}.

Lemma tokenize_from_trailing_spaces s w i tokens :
  all isspace w = true ->
  tokenize_from (s ++ w) i tokens = tokenize_from s i tokens.
Proof.
  intros Hw. destruct w as [|c w]; [now rewrite append_empty_r|].
  pose proof Hw as Hw'. cbn [all] in Hw'. apply andb_prop in Hw' as [Hc _].
  rewrite (tokenize_from_app _ s c w i tokens (le_n _) (space_not_numchar c Hc)).
  destruct (tokenize_from s i tokens) as [out|e]; [|reflexivity]. cbn [bind].
  pose proof (tokenize_from_spaces (String c w) "" (i + String.length s) out Hw) as E.
  rewrite append_empty_r in E. rewrite E. apply tokenize_from_empty.
Qed.

Lemma tokenize_outer_spaces w1 s w2 :
  all isspace w1 = true -> all isspace w2 = true ->
  tokenize_from (w1 ++ s ++ w2) 0 [] = tokenize_from s 0 [].
Proof.
  intros H1 H2. rewrite tokenize_from_spaces by assumption.
  rewrite tokenize_from_trailing_spaces by assumption.
  apply tokenize_from_any_cursor.
Qed.

(** Every token the lexer appends is one of the tokens it builds. *)
Lemma tokenize_from_lexed n : forall rest i tokens out,
  (String.length rest <= n)%nat ->
  tokenize_from rest i tokens = Ok out ->
  Forall lexed tokens -> Forall lexed out.
Proof.
  induction n as [|n IH]; intros rest i tokens out Hlen H Hall.
  - destruct rest; [|cbn in Hlen; lia]. rewrite tokenize_from_empty in H.
    now injection H as <-.
  - destruct rest as [|c rest'].
    { rewrite tokenize_from_empty in H. now injection H as <-. }
    cbn [String.length] in Hlen.
    assert (Hl : (String.length rest' <= n)%nat) by lia.
    assert (Hpush : forall r j t, (String.length r <= n)%nat -> lexed t ->
              tokenize_from r j (tokens ++ [t]) = Ok out -> Forall lexed out).
    { intros r j t Hr Ht Hout. apply (IH r j (tokens ++ [t])); try assumption.
      now apply Forall_snoc. }
    rewrite tokenize_from_unfold in H. revert H.
    repeat split_if; intros H; try discriminate.
    + now apply (IH rest' (S i) tokens).
    + apply (Hpush rest' (S i) _ Hl) in H; [assumption|].
      unfold lexed. cbn. split; [reflexivity | tauto].
    + destruct (Traced.scan_number (String c rest') i "" false)
        as [[[ns i'] r]|e] eqn:Hs; cbn [bind] in H; [|discriminate].
      destruct (stod ns); cbn [bind] in H; [|discriminate].
      pose proof (scan_number_progress _ _ _ _ _ _ Heqb1 Hs).
      apply (Hpush r i' _) in H; [assumption | lia | reflexivity].
    + apply (Hpush rest' (S i) _ Hl) in H; [assumption|].
      unfold lexed. cbn. split; [reflexivity|].
      repeat rewrite orb_true_iff in Heqb2. rewrite !Ascii.eqb_eq in Heqb2.
      intuition (subst; tauto).
    + apply (Hpush rest' (S i) _ Hl) in H; [assumption|]. now split.
    + apply (Hpush rest' (S i) _ Hl) in H; [assumption|]. now split.
Qed.

(** What the lexer can throw. *)
Lemma tokenize_from_throws n : forall rest i tokens e,
  (String.length rest <= n)%nat ->
  tokenize_from rest i tokens = Throw e ->
  e = multiple_decimal_points \/ (exists c, e = unknown_character c) \/
  (exists numStr, stod numStr = Throw e).
Proof.
  induction n as [|n IH]; intros rest i tokens e Hlen H.
  - destruct rest; [|cbn in Hlen; lia]. discriminate.
  - destruct rest as [|c rest']; [discriminate|].
    cbn [String.length] in Hlen.
    assert (Hl : (String.length rest' <= n)%nat) by lia.
    rewrite tokenize_from_unfold in H. revert H.
    repeat split_if; intros H; try (now apply IH in H).
    + destruct (Traced.scan_number (String c rest') i "" false)
        as [[[ns i'] r]|e'] eqn:Hs; cbn [bind] in H.
      * destruct (stod ns) eqn:Hstod; cbn [bind] in H.
        -- pose proof (scan_number_progress _ _ _ _ _ _ Heqb1 Hs).
           apply IH in H; [assumption | lia].
        -- injection H as <-. right. right. now exists ns.
      * injection H as <-. left.
        clear - Hs. revert Hs. generalize (String c rest') i "" false.
        induction s as [|d s IHs]; intros j ns h Hs; cbn in Hs; [discriminate|].
        destruct (isdigit d || (d =? ".")%char); [|discriminate].
        destruct (d =? ".")%char.
        ++ destruct h; [now injection Hs as <- | now apply IHs in Hs].
        ++ now apply IHs in Hs.
    + injection H as <-. right. left. now exists c.
Qed.

End LexerResults.

(** X1: white space before and after an expression changes neither its
    tokens nor what it evaluates to. *)
Theorem outer_whitespace_is_ignored (lib : CxxLib) (w1 s w2 : string) :
  all isspace w1 = true -> all isspace w2 = true ->
  Traced.tokenize (w1 ++ s ++ w2) = Traced.tokenize s /\
  Traced.evaluate (w1 ++ s ++ w2) = Traced.evaluate s.
Proof.
  intros H1 H2. split.
  - rewrite !tokenize_from_start. now apply tokenize_outer_spaces.
  - rewrite !evaluate_erase. now rewrite tokenize_outer_spaces.
Qed.

Lemma outer_whitespace_is_ignored_witness :
  (all isspace "  " = true /\ all isspace " " = true) /\
  @Traced.evaluate ref_lib "  1+2 " = @Traced.evaluate ref_lib "1+2".
Proof.
  split; [split; reflexivity|].
  exact (proj2 (outer_whitespace_is_ignored ref_lib "  " "1+2" " " eq_refl eq_refl)).
Defined.

(** X2: an empty line, or a line of white space only, has no token and
    fails with "malformed expression or missing operators". *)
Theorem blank_line_is_malformed (lib : CxxLib) (s : string) :
  all isspace s = true ->
  Traced.tokenize s = Ok [] /\ Traced.evaluate s = Throw malformed.
Proof.
  intros Hs.
  assert (E : tokenize_from s 0 [] = Ok []).
  { pose proof (tokenize_from_spaces s "" 0 [] Hs) as E.
    now rewrite append_empty_r in E. }
  split; [exact E|]. rewrite evaluate_erase, E. reflexivity.
Qed.

Lemma blank_line_is_malformed_witness :
  all isspace "   " = true /\ @Traced.evaluate ref_lib "   " = Throw malformed.
Proof.
  split; [reflexivity|].
  exact (proj2 (blank_line_is_malformed ref_lib "   " eq_refl)).
Defined.

(** X3: a character that is no white space, digit, ['.'], operator or
    parenthesis stops the lexer with "Unknown character: c", unless the text
    before it already made the lexer throw. *)
Theorem unknown_character_is_rejected (lib : CxxLib) (pre post : string)
    (c : ascii) :
  isspace c = false -> numchar c = false ->
  ~ In c ["+"; "-"; "*"; "/"; "^"; "%"; "("; ")"]%char ->
  Traced.tokenize (pre ++ String c post) =
    (tokens <- Traced.tokenize pre ;; Throw (unknown_character c)) /\
  Traced.evaluate (pre ++ String c post) =
    (tokens <- Traced.tokenize pre ;; Throw (unknown_character c)).
Proof.
  intros Hsp Hnum Hop.
  assert (E : tokenize_from (pre ++ String c post) 0 [] =
              (tokens <- tokenize_from pre 0 [] ;; Throw (unknown_character c))).
  { rewrite (tokenize_from_app _ pre c post 0 [] (le_n _) Hnum).
    destruct (tokenize_from pre 0 []) as [tokens|e]; [|reflexivity]. cbn [bind].
    rewrite tokenize_from_unfold, Hsp.
    unfold numchar in Hnum. apply orb_false_elim in Hnum as [Hd Hdot].
    rewrite Hd, Hdot. cbn [In] in Hop.
    repeat match goal with
    | |- context [(c =? ?x)%char] =>
        destruct (Ascii.eqb_spec c x); [exfalso; apply Hop; intuition congruence|]
    end.
    reflexivity. }
  split; [exact E|]. rewrite evaluate_erase, E, tokenize_from_start.
  now destruct (tokenize_from pre 0 []).
Qed.

Lemma unknown_character_is_rejected_witness :
  (isspace "x" = false /\ numchar "x" = false /\
   ~ In "x"%char ["+"; "-"; "*"; "/"; "^"; "%"; "("; ")"]%char) /\
  @Traced.evaluate ref_lib "2*x+1" = Throw (unknown_character "x").
Proof.
  assert (H : ~ In "x"%char ["+"; "-"; "*"; "/"; "^"; "%"; "("; ")"]%char).
  { cbn. intros H. repeat destruct H as [H|H]; try discriminate H; exact H. }
  split; [repeat split; try reflexivity; exact H|].
  exact (proj2 (unknown_character_is_rejected ref_lib "2*" "+1" "x"
                  eq_refl eq_refl H)).
Defined.

(** X4: in the tokens of an expression a NUMBER carries the character 0, an
    OPERATOR carries the value 0 and one of [+ - * / ^ % u], and a
    parenthesis carries the value 0 and the character 0. *)
Theorem tokenize_builds_lexed_tokens (lib : CxxLib) (expr : string)
    (tokens : list Token) :
  Traced.tokenize expr = Ok tokens -> Forall lexed tokens.
Proof.
  intros H. rewrite tokenize_from_start in H.
  exact (tokenize_from_lexed _ _ _ _ _ (le_n _) H (Forall_nil _)).
Qed.

Lemma tokenize_builds_lexed_tokens_witness :
  @Traced.tokenize ref_lib "-(2%)" =
    Ok [mkToken OPERATOR 0 "u"; mkToken PAREN_LEFT 0 NUL; mkToken NUMBER 2 NUL;
        mkToken OPERATOR 0 "%"; mkToken PAREN_RIGHT 0 NUL] /\
  Forall lexed [mkToken OPERATOR 0 "u"; mkToken PAREN_LEFT 0 NUL;
                mkToken NUMBER 2 NUL; mkToken OPERATOR 0 "%";
                mkToken PAREN_RIGHT 0 NUL].
Proof.
  split; [reflexivity|].
  exact (tokenize_builds_lexed_tokens ref_lib "-(2%)" _ eq_refl).
Defined.

(** * Further properties of the reorderer *)

Section ReordererResults.

Lemma not_paren_type t :
  not_paren t = match type t with
                | NUMBER | OPERATOR => true
                | PAREN_LEFT | PAREN_RIGHT => false
                end.
Proof. unfold not_paren, is_paren. now destruct (type t). Qed.

Lemma pop_to_paren_spec opStack : forall output,
  exists popped kept,
    opStack = popped ++ kept /\
    Traced.pop_to_paren opStack output = (kept, output ++ popped) /\
    Forall (fun t => type t <> PAREN_LEFT) popped /\
    match kept with
    | [] => True
    | top :: _ => type top = PAREN_LEFT
    end.
Proof.
  induction opStack as [|top below IH]; intros output.
  - exists [], []. cbn. rewrite app_nil_r. repeat split; constructor.
  - cbn [Traced.pop_to_paren].
    destruct (TokenType_eqb (type top) PAREN_LEFT) eqn:Hty; cbn [negb].
    + exists [], (top :: below). rewrite app_nil_r.
      repeat split; [constructor | now apply TokenType_eqb_eq].
    + destruct (IH (output ++ [top])) as (popped & kept & -> & Hpop & Hall & Hkept).
      exists (top :: popped), kept. rewrite Hpop, <- app_assoc.
      repeat split; [|assumption]. constructor; [|assumption].
      intros H. apply TokenType_eqb_eq in H. congruence.
Qed.

Lemma drain_spec opStack : forall output postfix,
  Traced.drain opStack output = Ok postfix ->
  postfix = output ++ opStack /\ left_parens opStack = O.
Proof.
  induction opStack as [|top below IH]; intros output postfix H;
    cbn [Traced.drain] in H.
  - injection H as <-. now rewrite app_nil_r.
  - destruct (TokenType_eqb (type top) PAREN_LEFT) eqn:Hty; [discriminate|].
    apply IH in H as [-> Hl]. rewrite <- app_assoc, left_parens_cons, Hty.
    now split.
Qed.

Lemma drain_no_left opStack : forall output,
  left_parens opStack = O ->
  Traced.drain opStack output = Ok (output ++ opStack).
Proof.
  intros output H. pose proof (drain_left_parens opStack output) as Hd.
  rewrite H in Hd. destruct Hd as [postfix Hd]. rewrite Hd.
  now apply drain_spec in Hd as [-> _].
Qed.

Lemma not_paren_operators l :
  Forall (fun t => type t = OPERATOR) l -> filter not_paren l = l.
Proof.
  induction 1 as [|t l Ht _ IH]; [reflexivity|].
  cbn [filter]. now rewrite not_paren_type, Ht, IH.
Qed.

Lemma kept_operators l :
  Forall operator_or_left l -> Forall (fun t => type t <> PAREN_LEFT) l ->
  Forall (fun t => type t = OPERATOR) l.
Proof.
  intros H1 H2. rewrite Forall_forall in *. intros t Ht.
  destruct (H1 t Ht) as [H|H]; [assumption | now apply H2 in Ht].
Qed.

(** What the main loop has put in the output and still holds on the stack is
    what it started with and the tokens it read, the parentheses apart. *)
Lemma toPostfix_loop_permutation tokens : forall opStack output opStack' output',
  Traced.toPostfix_loop tokens opStack output = Ok (opStack', output') ->
  Forall operator_or_left opStack -> Forall number_or_operator output ->
  Permutation (output' ++ filter not_paren opStack')
              (output ++ filter not_paren opStack ++ filter not_paren tokens).
Proof.
  induction tokens as [|tok tokens IH]; intros s o s' o' H Hs Ho.
  - injection H as <- <-. cbn. now rewrite app_nil_r.
  - cbn [Traced.toPostfix_loop] in H. unfold Traced.toPostfix_body in H.
    cbn [filter]. rewrite (not_paren_type tok).
    destruct (type tok) eqn:Hty.
    + cbn [bind] in H. apply IH in H; [| assumption |
        apply Forall_snoc; [assumption | now left]].
      rewrite H, <- app_assoc. apply Permutation_app_head. cbn [app].
      now apply Permutation_cons_app.
    + destruct (pop_operators_spec tok s o)
        as (popped & kept & -> & Hpop & Hall & _).
      rewrite Hpop in H. cbn [bind] in H.
      apply Forall_app in Hs as [Hs1 Hs2].
      assert (Hops : Forall (fun t => type t = OPERATOR) popped).
      { eapply Forall_impl; [|exact Hall]. now intros t [Ht _]. }
      apply IH in H.
      * rewrite H. cbn [filter]. rewrite (not_paren_type tok), Hty.
        rewrite filter_app, (not_paren_operators popped Hops), <- !app_assoc.
        do 2 apply Permutation_app_head. cbn [app].
        now apply Permutation_cons_app.
      * constructor; [now left | assumption].
      * apply Forall_app. split; [assumption|].
        eapply Forall_impl; [|exact Hops]. intros t Ht. now right.
    + cbn [bind] in H. apply IH in H; [| constructor; [now right | assumption]
                                       | assumption].
      rewrite H. cbn [filter]. now rewrite (not_paren_type tok), Hty.
    + destruct (pop_to_paren_spec s o) as (popped & kept & -> & Hpop & Hall & Hk).
      rewrite Hpop in H. destruct kept as [|lp below]; [discriminate|].
      cbn [bind] in H.
      apply Forall_app in Hs as [Hs1 Hs2]. inversion Hs2; subst.
      assert (Hops : Forall (fun t => type t = OPERATOR) popped)
        by now apply kept_operators.
      apply IH in H.
      * rewrite H, filter_app, (not_paren_operators popped Hops). cbn [filter].
        rewrite (not_paren_type lp), Hk.
        now rewrite <- !app_assoc.
      * assumption.
      * apply Forall_app. split; [assumption|].
        eapply Forall_impl; [|exact Hops]. intros t Ht. now right.
Qed.

Lemma no_left_parens opStack :
  left_parens opStack = O -> Forall (fun t => type t <> PAREN_LEFT) opStack.
Proof.
  induction opStack as [|top below IH]; intros H; [constructor|].
  rewrite left_parens_cons in H.
  destruct (TokenType_eqb (type top) PAREN_LEFT) eqn:Hty; [discriminate|].
  constructor; [|now apply IH].
  intros E. apply TokenType_eqb_eq in E. congruence.
Qed.

Lemma toPostfix_permutation tokens postfix :
  Traced.toPostfix tokens = Ok postfix ->
  Permutation postfix (filter not_paren tokens).
Proof.
  unfold Traced.toPostfix. intros H.
  destruct (Traced.toPostfix_loop tokens [] []) as [[s o]|e] eqn:Hloop;
    [|discriminate].
  cbn [bind] in H.
  destruct (toPostfix_loop_kinds _ _ _ _ _ Hloop (Forall_nil _) (Forall_nil _))
    as [Hs _].
  apply toPostfix_loop_permutation in Hloop; [|constructor|constructor].
  cbn [app filter] in Hloop. rewrite <- Hloop.
  pose proof H as Hd. apply drain_spec in Hd as [-> Hl].
  apply Permutation_app_head.
  rewrite not_paren_operators; [reflexivity|].
  apply kept_operators; [assumption | now apply no_left_parens].
Qed.

End ReordererResults.

(** X5: when [toPostfix] returns, the postfix sequence holds exactly the
    tokens of the input that are no parentheses, each as often as the input
    does: nothing is lost, added or repeated. *)
Theorem toPostfix_keeps_all_but_parentheses (tokens postfix : list Token) :
  Traced.toPostfix tokens = Ok postfix ->
  Permutation postfix (filter not_paren tokens).
Proof. apply toPostfix_permutation. Qed.

Lemma toPostfix_keeps_all_but_parentheses_witness :
  Traced.toPostfix [mkToken PAREN_LEFT 0 NUL; mkToken NUMBER 1 NUL;
                    mkToken OPERATOR 0 "+"; mkToken NUMBER 2 NUL;
                    mkToken PAREN_RIGHT 0 NUL; mkToken OPERATOR 0 "*";
                    mkToken NUMBER 3 NUL] =
    Ok [mkToken NUMBER 1 NUL; mkToken NUMBER 2 NUL; mkToken OPERATOR 0 "+";
        mkToken NUMBER 3 NUL; mkToken OPERATOR 0 "*"] /\
  Permutation
    [mkToken NUMBER 1 NUL; mkToken NUMBER 2 NUL; mkToken OPERATOR 0 "+";
     mkToken NUMBER 3 NUL; mkToken OPERATOR 0 "*"]
    [mkToken NUMBER 1 NUL; mkToken OPERATOR 0 "+"; mkToken NUMBER 2 NUL;
     mkToken OPERATOR 0 "*"; mkToken NUMBER 3 NUL].
Proof.
  split; [reflexivity|].
  exact (toPostfix_keeps_all_but_parentheses
           [mkToken PAREN_LEFT 0 NUL; mkToken NUMBER 1 NUL;
            mkToken OPERATOR 0 "+"; mkToken NUMBER 2 NUL;
            mkToken PAREN_RIGHT 0 NUL; mkToken OPERATOR 0 "*";
            mkToken NUMBER 3 NUL]
           [mkToken NUMBER 1 NUL; mkToken NUMBER 2 NUL; mkToken OPERATOR 0 "+";
            mkToken NUMBER 3 NUL; mkToken OPERATOR 0 "*"] eq_refl).
Defined.

Section ReordererOrder.

Lemma no_number_on_stack l :
  Forall operator_or_left l -> filter is_number l = [].
Proof.
  induction 1 as [|t l Ht _ IH]; [reflexivity|].
  cbn [filter]. unfold is_number.
  destruct Ht as [-> | ->]; exact IH.
Qed.

Lemma toPostfix_loop_numbers tokens : forall opStack output opStack' output',
  Traced.toPostfix_loop tokens opStack output = Ok (opStack', output') ->
  Forall operator_or_left opStack ->
  filter is_number output' = filter is_number output ++ filter is_number tokens /\
  Forall operator_or_left opStack'.
Proof.
  induction tokens as [|tok tokens IH]; intros s o s' o' H Hs.
  - injection H as <- <-. cbn. now rewrite app_nil_r.
  - cbn [Traced.toPostfix_loop] in H. unfold Traced.toPostfix_body in H.
    cbn [filter]. unfold is_number at 3.
    destruct (type tok) eqn:Hty; cbn [TokenType_eqb].
    + cbn [bind] in H. apply IH in H as [-> Hs']; [|assumption].
      rewrite filter_app. cbn [filter]. unfold is_number at 2. rewrite Hty.
      cbn [TokenType_eqb]. now rewrite <- app_assoc.
    + destruct (pop_operators_spec tok s o)
        as (popped & kept & -> & Hpop & _ & _).
      rewrite Hpop in H. cbn [bind] in H.
      apply Forall_app in Hs as [Hs1 Hs2].
      apply IH in H as [-> Hs']; [|constructor; [now left | assumption]].
      now rewrite filter_app, (no_number_on_stack popped Hs1), app_nil_r.
    + cbn [bind] in H. apply IH in H; [assumption|].
      constructor; [now right | assumption].
    + destruct (pop_to_paren_spec s o) as (popped & kept & -> & Hpop & _ & _).
      rewrite Hpop in H. destruct kept as [|lp below]; [discriminate|].
      cbn [bind] in H.
      apply Forall_app in Hs as [Hs1 Hs2]. inversion Hs2; subst.
      apply IH in H as [-> Hs']; [|assumption].
      now rewrite filter_app, (no_number_on_stack popped Hs1), app_nil_r.
Qed.

(** ** Below a left parenthesis *)

Lemma pop_operators_frame tok lp base opStack : forall output,
  type lp = PAREN_LEFT ->
  Traced.pop_operators tok (opStack ++ lp :: base) output =
    let '(opStack', output') := Traced.pop_operators tok opStack output in
    (opStack' ++ lp :: base, output').
Proof.
  intros output Hlp. revert output.
  induction opStack as [|top below IH]; intros output.
  - cbn. now rewrite Hlp.
  - cbn [app Traced.pop_operators].
    destruct (TokenType_eqb (type top) OPERATOR); [|reflexivity].
    split_if; [apply IH | reflexivity].
Qed.

Lemma pop_to_paren_frame lp base opStack : forall output,
  type lp = PAREN_LEFT ->
  Traced.pop_to_paren (opStack ++ lp :: base) output =
    let '(opStack', output') := Traced.pop_to_paren opStack output in
    (opStack' ++ lp :: base, output').
Proof.
  intros output Hlp. revert output.
  induction opStack as [|top below IH]; intros output.
  - cbn. now rewrite Hlp.
  - cbn [app Traced.pop_to_paren].
    destruct (TokenType_eqb (type top) PAREN_LEFT); cbn [negb];
      [reflexivity | apply IH].
Qed.

(** While every right parenthesis finds its left one among the tokens read,
    the main loop leaves what lies under an older left parenthesis alone. *)
Lemma toPostfix_loop_frame lp base tokens : forall opStack output,
  type lp = PAREN_LEFT ->
  paren_scan (left_parens opStack) tokens <> UnexpectedRight ->
  Traced.toPostfix_loop tokens (opStack ++ lp :: base) output =
    '(opStack', output') <- Traced.toPostfix_loop tokens opStack output ;;
    Ok (opStack' ++ lp :: base, output').
Proof.
  intros s o Hlp. revert s o.
  induction tokens as [|tok tokens IH]; intros s o Hscan; [reflexivity|].
  cbn [paren_scan] in Hscan.
  cbn [Traced.toPostfix_loop]. unfold Traced.toPostfix_body.
  destruct (type tok) eqn:Hty.
  - cbn [bind]. now apply IH.
  - rewrite pop_operators_frame by assumption.
    destruct (Traced.pop_operators tok s o) as [s1 o1] eqn:Hp. cbn [bind].
    apply (IH (tok :: s1)).
    rewrite left_parens_cons, Hty. cbn.
    now rewrite (pop_operators_left_parens _ _ _ _ _ Hp).
  - cbn [bind]. apply (IH (tok :: s)). now rewrite left_parens_cons, Hty.
  - rewrite pop_to_paren_frame by assumption.
    destruct (Traced.pop_to_paren s o) as [s1 o1] eqn:Hp.
    apply pop_to_paren_left_parens in Hp.
    destruct s1 as [|top below].
    + rewrite Hp in Hscan. contradiction.
    + cbn [app bind]. apply IH. destruct Hp as [_ Hp].
      now rewrite Hp in Hscan.
Qed.

Lemma toPostfix_loop_app tokens1 tokens2 : forall opStack output,
  Traced.toPostfix_loop (tokens1 ++ tokens2) opStack output =
    '(opStack', output') <- Traced.toPostfix_loop tokens1 opStack output ;;
    Traced.toPostfix_loop tokens2 opStack' output'.
Proof.
  induction tokens1 as [|tok tokens1 IH]; intros s o; [reflexivity|].
  cbn [app Traced.toPostfix_loop].
  destruct (Traced.toPostfix_body tok s o) as [[s1 o1]|e]; [|reflexivity].
  cbn [bind]. apply IH.
Qed.

Lemma pop_to_paren_no_left opStack : forall output,
  left_parens opStack = O ->
  Traced.pop_to_paren opStack output = ([], output ++ opStack).
Proof.
  induction opStack as [|top below IH]; intros output H.
  - cbn. now rewrite app_nil_r.
  - rewrite left_parens_cons in H. cbn [Traced.pop_to_paren].
    destruct (TokenType_eqb (type top) PAREN_LEFT); [discriminate|].
    cbn [negb]. rewrite IH by assumption. now rewrite <- app_assoc.
Qed.

Lemma toPostfix_in_parentheses lp rp tokens :
  type lp = PAREN_LEFT -> type rp = PAREN_RIGHT ->
  paren_scan 0 tokens = Balanced ->
  Traced.toPostfix (lp :: tokens ++ [rp]) = Traced.toPostfix tokens.
Proof.
  intros Hlp Hrp Hbal. unfold Traced.toPostfix.
  cbn [Traced.toPostfix_loop]. unfold Traced.toPostfix_body at 1.
  rewrite Hlp. cbn [bind]. rewrite toPostfix_loop_app.
  change [lp] with ([] ++ lp :: []).
  rewrite toPostfix_loop_frame; [|assumption|cbn; congruence].
  pose proof (toPostfix_loop_parens tokens [] []) as H.
  change (left_parens []) with O in H. rewrite Hbal in H.
  destruct H as (s & o & -> & Hs). cbn [bind Traced.toPostfix_loop].
  unfold Traced.toPostfix_body. rewrite Hrp.
  rewrite pop_to_paren_frame, pop_to_paren_no_left by assumption.
  cbn [app bind Traced.drain]. now rewrite drain_no_left.
Qed.

End ReordererOrder.

(** X6: [toPostfix] never reorders operands: the NUMBER tokens of the
    postfix sequence are those of the input, in the same order. *)
Theorem toPostfix_keeps_operand_order (tokens postfix : list Token) :
  Traced.toPostfix tokens = Ok postfix ->
  filter is_number postfix = filter is_number tokens.
Proof.
  unfold Traced.toPostfix. intros H.
  destruct (Traced.toPostfix_loop tokens [] []) as [[s o]|e] eqn:Hloop;
    [|discriminate].
  cbn [bind] in H.
  apply toPostfix_loop_numbers in Hloop as [Ho Hs]; [|constructor].
  apply drain_spec in H as [-> _].
  now rewrite filter_app, Ho, (no_number_on_stack s Hs), app_nil_r.
Qed.

Lemma toPostfix_keeps_operand_order_witness :
  Traced.toPostfix [mkToken NUMBER 1 NUL; mkToken OPERATOR 0 "+";
                    mkToken NUMBER 2 NUL; mkToken OPERATOR 0 "*";
                    mkToken NUMBER 3 NUL] =
    Ok [mkToken NUMBER 1 NUL; mkToken NUMBER 2 NUL; mkToken NUMBER 3 NUL;
        mkToken OPERATOR 0 "*"; mkToken OPERATOR 0 "+"] /\
  filter is_number
    [mkToken NUMBER 1 NUL; mkToken NUMBER 2 NUL; mkToken NUMBER 3 NUL;
     mkToken OPERATOR 0 "*"; mkToken OPERATOR 0 "+"] =
  [mkToken NUMBER 1 NUL; mkToken NUMBER 2 NUL; mkToken NUMBER 3 NUL].
Proof.
  split; [reflexivity|].
  exact (toPostfix_keeps_operand_order
           [mkToken NUMBER 1 NUL; mkToken OPERATOR 0 "+";
            mkToken NUMBER 2 NUL; mkToken OPERATOR 0 "*";
            mkToken NUMBER 3 NUL]
           [mkToken NUMBER 1 NUL; mkToken NUMBER 2 NUL; mkToken NUMBER 3 NUL;
            mkToken OPERATOR 0 "*"; mkToken OPERATOR 0 "+"] eq_refl).
Defined.

(** X7: an expression whose parentheses match evaluates, inside one more pair
    of parentheses, to what it evaluates to without them: the same value or
    the same exception. *)
Theorem redundant_parentheses (lib : CxxLib) (s : string)
    (tokens : list Token) :
  Traced.tokenize s = Ok tokens -> paren_scan 0 tokens = Balanced ->
  Traced.tokenize ("(" ++ s ++ ")") =
    Ok (mkToken PAREN_LEFT 0 NUL :: tokens ++ [mkToken PAREN_RIGHT 0 NUL]) /\
  Traced.evaluate ("(" ++ s ++ ")") = Traced.evaluate s.
Proof.
  intros Hlex Hbal. rewrite tokenize_from_start in Hlex.
  assert (E : tokenize_from ("(" ++ s ++ ")") 0 [] =
              Ok (mkToken PAREN_LEFT 0 NUL :: tokens ++ [mkToken PAREN_RIGHT 0 NUL])).
  { cbn [append]. rewrite tokenize_from_unfold. cbn -[tokenize_from].
    rewrite (tokenize_from_app _ s ")" "" 1 _ (le_n _) eq_refl).
    rewrite (tokenize_from_fresh s 0 [] (mkToken PAREN_LEFT 0 NUL))
      by (right; reflexivity).
    rewrite Hlex. cbn [bind app]. rewrite tokenize_from_unfold.
    cbn -[tokenize_from]. now rewrite tokenize_from_empty. }
  split; [exact E|].
  rewrite !evaluate_erase, E, Hlex. cbn [bind].
  now rewrite toPostfix_in_parentheses.
Qed.

Lemma redundant_parentheses_witness :
  (@Traced.tokenize ref_lib "-(1+2)*3" =
     Ok [mkToken OPERATOR 0 "u"; mkToken PAREN_LEFT 0 NUL; mkToken NUMBER 1 NUL;
         mkToken OPERATOR 0 "+"; mkToken NUMBER 2 NUL; mkToken PAREN_RIGHT 0 NUL;
         mkToken OPERATOR 0 "*"; mkToken NUMBER 3 NUL] /\
   paren_scan 0
     [mkToken OPERATOR 0 "u"; mkToken PAREN_LEFT 0 NUL; mkToken NUMBER 1 NUL;
      mkToken OPERATOR 0 "+"; mkToken NUMBER 2 NUL; mkToken PAREN_RIGHT 0 NUL;
      mkToken OPERATOR 0 "*"; mkToken NUMBER 3 NUL] = Balanced) /\
  @Traced.evaluate ref_lib "(-(1+2)*3)" = @Traced.evaluate ref_lib "-(1+2)*3".
Proof.
  split; [split; reflexivity|].
  exact (proj2 (redundant_parentheses ref_lib "-(1+2)*3" _ eq_refl eq_refl)).
Defined.

(** * Further properties of the evaluator *)

Section EvaluatorResults.
Context {lib : CxxLib}.

Lemma evaluatePostfix_body_frame tok st st' base :
  Clean.evaluatePostfix_body tok st = Ok st' ->
  Clean.evaluatePostfix_body tok (st ++ base) = Ok (st' ++ base).
Proof.
  unfold Clean.evaluatePostfix_body.
  destruct (type tok); try (now intros [= <-]).
  destruct (op tok =? "u")%char.
  { destruct st; [discriminate | now intros [= <-]]. }
  destruct (op tok =? "%")%char.
  { destruct st; [discriminate | now intros [= <-]]. }
  destruct st as [|y [|x st]]; try discriminate. cbn [app].
  destruct (Clean.applyOperation x y (op tok)); cbn [bind];
    [now intros [= <-] | discriminate].
Qed.

(** A postfix sequence that evaluates on a stack evaluates the same way on
    top of any other values, and leaves them alone. *)
Lemma evaluatePostfix_loop_frame postfix : forall st st' base,
  Clean.evaluatePostfix_loop postfix st = Ok st' ->
  Clean.evaluatePostfix_loop postfix (st ++ base) = Ok (st' ++ base).
Proof.
  induction postfix as [|tok postfix IH]; intros st st' base H.
  - now injection H as <-.
  - cbn [Clean.evaluatePostfix_loop] in *.
    destruct (Clean.evaluatePostfix_body tok st) as [st1|e] eqn:Hb;
      [|discriminate].
    rewrite (evaluatePostfix_body_frame _ _ _ base Hb). cbn [bind] in *.
    now apply IH.
Qed.

Lemma evaluatePostfix_loop_app p1 p2 : forall st,
  Clean.evaluatePostfix_loop (p1 ++ p2) st =
    st1 <- Clean.evaluatePostfix_loop p1 st ;; Clean.evaluatePostfix_loop p2 st1.
Proof.
  induction p1 as [|tok p1 IH]; intros st; [reflexivity|].
  cbn [app Clean.evaluatePostfix_loop].
  destruct (Clean.evaluatePostfix_body tok st); [apply IH | reflexivity].
Qed.

Lemma evaluatePostfix_value postfix v :
  Clean.evaluatePostfix postfix = Ok v <->
  Clean.evaluatePostfix_loop postfix [] = Ok [v].
Proof.
  unfold Clean.evaluatePostfix.
  destruct (Clean.evaluatePostfix_loop postfix []) as [[|top [|]]|e];
    cbn [bind]; split; congruence.
Qed.

(** Each NUMBER adds a value to the stack, each binary operator takes one
    away, and nothing else changes its height. *)
Lemma evaluatePostfix_loop_height postfix : forall st st',
  Clean.evaluatePostfix_loop postfix st = Ok st' ->
  (List.length st' + List.length (filter is_binary postfix) =
   List.length st + List.length (filter is_number postfix))%nat.
Proof.
  induction postfix as [|tok postfix IH]; intros st st' H.
  - injection H as <-. cbn. lia.
  - cbn [Clean.evaluatePostfix_loop] in H.
    destruct (Clean.evaluatePostfix_body tok st) as [st1|e] eqn:Hb;
      [|discriminate].
    cbn [bind] in H. apply IH in H. cbn [filter].
    unfold is_binary at 1, is_number at 1.
    unfold Clean.evaluatePostfix_body in Hb.
    destruct (type tok); cbn [TokenType_eqb andb];
      try (injection Hb as <-; cbn [List.length] in *; lia).
    destruct (op tok =? "u")%char; cbn [negb andb].
    { destruct st; [discriminate|]. injection Hb as <-. cbn [List.length] in *. lia. }
    destruct (op tok =? "%")%char; cbn [negb].
    { destruct st; [discriminate|]. injection Hb as <-. cbn [List.length] in *. lia. }
    destruct st as [|y [|x st]]; try discriminate.
    destruct (Clean.applyOperation x y (op tok)); cbn [bind] in Hb;
      [|discriminate].
    injection Hb as <-. cbn [List.length] in *. lia.
Qed.

(** What the evaluator can throw on tokens the lexer built. *)
Lemma evaluatePostfix_loop_throws postfix : forall st e,
  Forall lexed postfix ->
  Clean.evaluatePostfix_loop postfix st = Throw e ->
  In e [missing_unary_operand; missing_percent_operand;
        missing_binary_operand; division_by_zero].
Proof.
  induction postfix as [|tok postfix IH]; intros st e Hall H; [discriminate|].
  inversion Hall as [|? ? Htok Hrest]; subst.
  cbn [Clean.evaluatePostfix_loop] in H.
  destruct (Clean.evaluatePostfix_body tok st) as [st1|e1] eqn:Hb; cbn [bind] in H.
  { now apply IH in H. }
  injection H as <-. clear IH Hall Hrest.
  unfold Clean.evaluatePostfix_body in Hb. unfold lexed in Htok.
  destruct (type tok); try discriminate.
  destruct (Ascii.eqb_spec (op tok) "u").
  { destruct st; [injection Hb as <-; cbn; tauto | discriminate]. }
  destruct (Ascii.eqb_spec (op tok) "%").
  { destruct st; [injection Hb as <-; cbn; tauto | discriminate]. }
  destruct st as [|y [|x st]]; try (injection Hb as <-; cbn; tauto).
  destruct Htok as [_ Hop]. cbn [In] in Hop.
  destruct Hop as [Hop|[Hop|[Hop|[Hop|[Hop|[Hop|[Hop|[]]]]]]]];
    rewrite <- Hop in *; try congruence; cbn in Hb; try discriminate.
  destruct (PrimFloat.eqb y 0); [|discriminate].
  injection Hb as <-. cbn. tauto.
Qed.

End EvaluatorResults.

(** X8: [evaluatePostfix] returns a value only for a sequence with exactly
    one NUMBER more than it has binary operators; ['u'] and ['%'] do not
    count. *)
Theorem evaluatePostfix_balance (lib : CxxLib) (postfix : list Token)
    (out : ostream) (v : float) :
  fst (Traced.evaluatePostfix postfix out) = Ok v ->
  List.length (filter is_number postfix) =
  S (List.length (filter is_binary postfix)).
Proof.
  rewrite evaluatePostfix_erase. intros H. apply evaluatePostfix_value in H.
  apply evaluatePostfix_loop_height in H. cbn [List.length] in H. lia.
Qed.

Lemma evaluatePostfix_balance_witness :
  fst (@Traced.evaluatePostfix ref_lib
         [mkToken NUMBER 8 NUL; mkToken OPERATOR 0 "u"; mkToken NUMBER 50 NUL;
          mkToken OPERATOR 0 "%"; mkToken OPERATOR 0 "*"] []) = Ok (-4)%float /\
  List.length (filter is_number
    [mkToken NUMBER 8 NUL; mkToken OPERATOR 0 "u"; mkToken NUMBER 50 NUL;
     mkToken OPERATOR 0 "%"; mkToken OPERATOR 0 "*"]) =
  S (List.length (filter is_binary
    [mkToken NUMBER 8 NUL; mkToken OPERATOR 0 "u"; mkToken NUMBER 50 NUL;
     mkToken OPERATOR 0 "%"; mkToken OPERATOR 0 "*"])).
Proof.
  split; [reflexivity|].
  exact (evaluatePostfix_balance ref_lib
           [mkToken NUMBER 8 NUL; mkToken OPERATOR 0 "u"; mkToken NUMBER 50 NUL;
            mkToken OPERATOR 0 "%"; mkToken OPERATOR 0 "*"] [] (-4)%float
           eq_refl).
Defined.

(** X9: postfix evaluation composes. When [p1] evaluates to [x] and [p2] to
    [y], then [p1 ++ p2] followed by a binary operator evaluates to
    [applyOperation x y], with [x] on the left; [p1] followed by ['u']
    evaluates to [- x], and followed by ['%'] to [x / 100]. *)
Theorem evaluatePostfix_composes (lib : CxxLib) (p1 p2 : list Token)
    (tok : Token) (x y : float) (out1 out2 out : ostream) :
  fst (Traced.evaluatePostfix p1 out1) = Ok x ->
  fst (Traced.evaluatePostfix p2 out2) = Ok y ->
  is_binary tok = true ->
  fst (Traced.evaluatePostfix (p1 ++ p2 ++ [tok]) out) =
    Traced.applyOperation x y (op tok) /\
  fst (Traced.evaluatePostfix (p1 ++ [mkToken OPERATOR 0 "u"]) out) =
    Ok (- x)%float /\
  fst (Traced.evaluatePostfix (p1 ++ [mkToken OPERATOR 0 "%"]) out) =
    Ok (x / 100)%float.
Proof.
  rewrite !evaluatePostfix_erase. intros H1 H2 Hbin.
  apply evaluatePostfix_value in H1, H2.
  unfold Clean.evaluatePostfix. rewrite !evaluatePostfix_loop_app, H1.
  cbn [bind]. split; [|split; reflexivity].
  pose proof (evaluatePostfix_loop_frame p2 [] [y] [x] H2) as F.
  cbn [app] in F. rewrite evaluatePostfix_loop_app, F. cbn [bind app].
  cbn [Clean.evaluatePostfix_loop]. unfold Clean.evaluatePostfix_body.
  unfold is_binary in Hbin.
  apply andb_prop in Hbin as [Hbin Hpct]. apply andb_prop in Hbin as [Hty Hu].
  apply TokenType_eqb_eq in Hty. apply negb_true_iff in Hu, Hpct.
  rewrite Hty, Hu, Hpct.
  change (Clean.applyOperation x y (op tok))
    with (Traced.applyOperation x y (op tok)).
  now destruct (Traced.applyOperation x y (op tok)).
Qed.

Lemma evaluatePostfix_composes_witness :
  (fst (@Traced.evaluatePostfix ref_lib
          [mkToken NUMBER 7 NUL; mkToken NUMBER 1 NUL; mkToken OPERATOR 0 "+"] [])
     = Ok 8%float /\
   fst (@Traced.evaluatePostfix ref_lib
          [mkToken NUMBER 2 NUL; mkToken OPERATOR 0 "u"] []) = Ok (-2)%float /\
   is_binary (mkToken OPERATOR 0 "/") = true) /\
  fst (@Traced.evaluatePostfix ref_lib
         [mkToken NUMBER 7 NUL; mkToken NUMBER 1 NUL; mkToken OPERATOR 0 "+";
          mkToken NUMBER 2 NUL; mkToken OPERATOR 0 "u"; mkToken OPERATOR 0 "/"] [])
    = Ok (-4)%float.
Proof.
  split; [repeat split; reflexivity|].
  exact (proj1 (evaluatePostfix_composes ref_lib
           [mkToken NUMBER 7 NUL; mkToken NUMBER 1 NUL; mkToken OPERATOR 0 "+"]
           [mkToken NUMBER 2 NUL; mkToken OPERATOR 0 "u"]
           (mkToken OPERATOR 0 "/") 8%float (-2)%float [] [] []
           eq_refl eq_refl eq_refl)).
Defined.

(** * Further properties of the pipeline *)

Section Expressions.
Context {lib : CxxLib}.

(** A literal and the operator after it: after a number a ['-'] is binary. *)
Lemma tokenize_from_literal_then a c rest i tokens x :
  is_literal a = true -> stod a = Ok x ->
  In c ["+"; "-"; "*"; "/"; "^"; "%"]%char ->
  tokenize_from (a ++ String c rest) i tokens =
  tokenize_from rest (S (i + String.length a))
    (tokens ++ [mkToken NUMBER x NUL; mkToken OPERATOR 0 c]).
Proof.
  intros Ha Hx Hc.
  assert (Hcn : numchar c = false).
  { cbn [In] in Hc. destruct Hc as [<-|[<-|[<-|[<-|[<-|[<-|[]]]]]]]; reflexivity. }
  rewrite (tokenize_from_literal a (String c rest) i tokens x Ha Hcn Hx).
  replace (tokens ++ [mkToken NUMBER x NUL; mkToken OPERATOR 0 c])
    with ((tokens ++ [mkToken NUMBER x NUL]) ++ [mkToken OPERATOR 0 c])
    by now rewrite <- app_assoc.
  destruct (Ascii.eqb_spec c "-") as [->|Hne].
  - rewrite tokenize_from_minus.
    destruct a as [|a0 a']; [discriminate|]. cbn [String.length].
    rewrite Nat.add_succ_r. cbn [Nat.eqb orb].
    unfold back_has_type. rewrite back_app, empty_app. cbn [empty type].
    now rewrite andb_false_r.
  - apply (tokenize_from_operator c).
    cbn [In] in *. intuition congruence.
Qed.

(** A literal at the end of the text. *)
Lemma tokenize_from_literal_end a i tokens x :
  is_literal a = true -> stod a = Ok x ->
  tokenize_from a i tokens = Ok (tokens ++ [mkToken NUMBER x NUL]).
Proof.
  intros Ha Hx.
  pose proof (tokenize_from_literal a "" i tokens x Ha eq_refl Hx) as E.
  rewrite append_empty_r in E. rewrite E. apply tokenize_from_empty.
Qed.

Lemma toPostfix_throws tokens e :
  Traced.toPostfix tokens = Throw e -> e = unexpected_right \/ e = unclosed_left.
Proof.
  unfold Traced.toPostfix. intros H.
  pose proof (toPostfix_loop_parens tokens [] []) as Hl.
  destruct (paren_scan (left_parens []) tokens).
  - destruct Hl as (s & o & Hl & Hs). rewrite Hl in H. cbn [bind] in H.
    rewrite drain_no_left in H by assumption. discriminate.
  - rewrite Hl in H. injection H as <-. now left.
  - destruct Hl as (s & o & Hl & Hs). rewrite Hl in H. cbn [bind] in H.
    pose proof (drain_left_parens s o) as Hd.
    destruct (left_parens s); [congruence|].
    rewrite Hd in H. injection H as <-. now right.
Qed.

End Expressions.

Lemma evaluate_throws (lib : CxxLib) (expr : string) (e : exception) :
  Traced.evaluate expr = Throw e ->
  In e [multiple_decimal_points; unexpected_right; unclosed_left;
        missing_unary_operand; missing_percent_operand;
        missing_binary_operand; division_by_zero; malformed] \/
  (exists c, e = unknown_character c) \/
  (exists numStr, stod numStr = Throw e).
Proof.
  rewrite evaluate_erase. intros H.
  destruct (tokenize_from expr 0 []) as [tokens|e1] eqn:Hlex; cbn [bind] in H.
  - pose proof (tokenize_from_lexed _ _ _ _ _ (le_n _) Hlex (Forall_nil _)) as Hall.
    destruct (Traced.toPostfix tokens) as [postfix|e2] eqn:Hpost; cbn [bind] in H.
    + left. apply toPostfix_permutation in Hpost.
      assert (Hp : Forall lexed postfix).
      { apply (Permutation_Forall (Permutation_sym Hpost)).
        apply Forall_forall. intros t Ht. apply filter_In in Ht as [Ht _].
        rewrite Forall_forall in Hall. now apply Hall. }
      unfold Clean.evaluatePostfix in H.
      destruct (Clean.evaluatePostfix_loop postfix []) as [st|e3] eqn:Hloop;
        cbn [bind] in H.
      * destruct st as [|top [|]]; try discriminate;
          injection H as <-; cbn; tauto.
      * injection H as <-.
        apply evaluatePostfix_loop_throws in Hloop; [|assumption].
        cbn [In] in *. tauto.
    + injection H as <-. left.
      apply toPostfix_throws in Hpost as [-> | ->]; cbn; tauto.
  - injection H as <-.
    apply (tokenize_from_throws _ _ _ _ _ (le_n _)) in Hlex
      as [-> | [H | H]]; [left; cbn; tauto | now right; left | now right; right].
Qed.

(** X10: the exceptions of the pipeline. Whatever the line, it fails only
    with one of eight fixed messages, with "Unknown character: c", or with
    what [std::stod] itself threw; so [applyOperation] never reaches its
    "Unknown operator" branch on tokens of the lexer. *)
Theorem evaluate_exceptions (lib : CxxLib) (expr : string) (e : exception) :
  Traced.evaluate expr = Throw e ->
  In e [multiple_decimal_points; unexpected_right; unclosed_left;
        missing_unary_operand; missing_percent_operand;
        missing_binary_operand; division_by_zero; malformed] \/
  (exists c, e = unknown_character c) \/
  (exists numStr, stod numStr = Throw e).
Proof. apply evaluate_throws. Qed.

Lemma evaluate_exceptions_witness :
  @Traced.evaluate ref_lib "2*+" = Throw missing_binary_operand /\
  (In missing_binary_operand
      [multiple_decimal_points; unexpected_right; unclosed_left;
       missing_unary_operand; missing_percent_operand;
       missing_binary_operand; division_by_zero; malformed] \/
   (exists c, missing_binary_operand = unknown_character c) \/
   (exists numStr, @stod ref_lib numStr = Throw missing_binary_operand)).
Proof.
  split; [reflexivity|].
  exact (evaluate_exceptions ref_lib "2*+" missing_binary_operand eq_refl).
Defined.

(** X11: the two unary operators on a literal [a] of value [x]: ["-a"]
    evaluates to [- x], ["a%"] to [x / 100], and ["-a%"] to [- (x / 100)]:
    the percent is applied before the sign. *)
Theorem unary_operators_on_a_literal (lib : CxxLib) (a : string) (x : float) :
  is_literal a = true -> stod a = Ok x ->
  Traced.evaluate ("-" ++ a) = Ok (- x)%float /\
  Traced.evaluate (a ++ "%") = Ok (x / 100)%float /\
  Traced.evaluate ("-" ++ a ++ "%") = Ok (- (x / 100))%float.
Proof.
  intros Ha Hx. split; [|split]; rewrite evaluate_erase; cbn [append].
  - rewrite tokenize_from_minus. cbn [Nat.eqb orb app].
    now rewrite (tokenize_from_literal_end a _ _ x Ha Hx).
  - rewrite (tokenize_from_literal_then a "%" "" 0 [] x Ha Hx) by (cbn; tauto).
    now rewrite tokenize_from_empty.
  - rewrite tokenize_from_minus. cbn [Nat.eqb orb app].
    rewrite (tokenize_from_literal_then a "%" "" _ _ x Ha Hx) by (cbn; tauto).
    now rewrite tokenize_from_empty.
Qed.

Lemma unary_operators_on_a_literal_witness :
  (is_literal "12.5" = true /\ @stod ref_lib "12.5" = Ok 12.5%float) /\
  @Traced.evaluate ref_lib "-12.5%" = Ok (-0.125)%float.
Proof.
  split; [split; reflexivity|].
  exact (proj2 (proj2 (unary_operators_on_a_literal ref_lib "12.5" 12.5%float
                         eq_refl eq_refl))).
Defined.



(** X13: a unary minus right after ['^'] or ['%'] is not supported. The
    ['u'] has a lower precedence than either and is right-associative, so it
    sends the operator before it to the output ahead of its operand: for
    literals [a] and [b] that [std::stod] converts, to [x] and [y], the line
    [a^-b] fails with "missing operand for binary operator" and [a%-b] with
    "malformed expression", whereas [a*-b] is [x * (- y)]. *)
Theorem unary_minus_after_power_fails (lib : CxxLib) (a b : string)
    (x y : float) :
  is_literal a = true -> is_literal b = true ->
  stod a = Ok x -> stod b = Ok y ->
  Traced.evaluate (a ++ "^-" ++ b) = Throw missing_binary_operand /\
  Traced.evaluate (a ++ "%-" ++ b) = Throw malformed /\
  Traced.evaluate (a ++ "*-" ++ b) = Ok (x * - y)%float.
Proof.
  intros Ha Hb Hx Hy.
  split; [|split]; rewrite evaluate_erase; cbn [append];
    rewrite (tokenize_from_literal_then a _ _ 0 [] x Ha Hx) by (cbn; tauto);
    rewrite tokenize_from_minus; cbn [app back_has_type back type TokenType_eqb orb];
    rewrite orb_true_r; cbn [app];
    rewrite (tokenize_from_literal_end b _ _ y Hb Hy); reflexivity.
Qed.

Lemma unary_minus_after_power_fails_witness :
  (is_literal "2" = true /\ is_literal "1" = true /\
   @stod ref_lib "2" = Ok 2%float /\ @stod ref_lib "1" = Ok 1%float) /\
  @Traced.evaluate ref_lib "2^-1" = Throw missing_binary_operand.
Proof.
  split; [repeat split; reflexivity|].
  exact (proj1 (unary_minus_after_power_fails ref_lib "2" "1" 2 1
                  eq_refl eq_refl eq_refl eq_refl)).
Defined.



(** * The trace and the application *)

Section Trace.
Context {lib : CxxLib}.

Lemma appends_ret {A : Type} (a : A) : appends (ret a).
Proof. intros out. cbn. now rewrite app_nil_r. Qed.

Lemma appends_throw {A : Type} (e : exception) : appends (@throw A e).
Proof. intros out. cbn. now rewrite app_nil_r. Qed.

Lemma appends_lift {A : Type} (r : result A) : appends (lift r).
Proof. intros out. cbn. now rewrite app_nil_r. Qed.

Lemma appends_print items : appends (print items).
Proof. intros out. reflexivity. Qed.

Lemma appends_bind {A B : Type} (m : IO A) (k : A -> IO B) :
  appends m -> (forall a, appends (k a)) -> appends (bindIO m k).
Proof.
  intros Hm Hk out. unfold bindIO. rewrite (Hm out).
  destruct (m []) as [[a|e] o1]; cbn [fst snd].
  - rewrite (Hk a (out ++ o1)), (Hk a o1). cbn [fst snd].
    now rewrite app_assoc.
  - reflexivity.
Qed.

Lemma appends_evaluatePostfix_body tok st :
  appends (Traced.evaluatePostfix_body tok st).
Proof.
  unfold Traced.evaluatePostfix_body.
  destruct (type tok); try apply appends_ret.
  - apply appends_bind; [apply appends_print | intros; apply appends_ret].
  - destruct (op tok =? "u")%char.
    { destruct st; [apply appends_throw|].
      apply appends_bind; [apply appends_print | intros; apply appends_ret]. }
    destruct (op tok =? "%")%char.
    { destruct st; [apply appends_throw|].
      apply appends_bind; [apply appends_print | intros; apply appends_ret]. }
    destruct st as [|y [|x st]]; try apply appends_throw.
    apply appends_bind; [apply appends_lift|]. intros r.
    apply appends_bind; [apply appends_print | intros; apply appends_ret].
Qed.

Lemma appends_evaluatePostfix_loop postfix : forall st,
  appends (Traced.evaluatePostfix_loop postfix st).
Proof.
  induction postfix as [|tok postfix IH]; intros st; [apply appends_ret|].
  cbn [Traced.evaluatePostfix_loop].
  apply appends_bind; [apply appends_evaluatePostfix_body | exact IH].
Qed.

Lemma appends_evaluatePostfix postfix : appends (Traced.evaluatePostfix postfix).
Proof.
  unfold Traced.evaluatePostfix.
  apply appends_bind; [apply appends_evaluatePostfix_loop|].
  intros [|top [|]]; (apply appends_ret || apply appends_throw).
Qed.

Lemma appends_debug tokens stage : appends (Traced.debug tokens stage).
Proof.
  unfold Traced.debug.
  apply appends_bind; [apply appends_print | intros _].
  apply appends_bind; [|intros _; apply appends_print].
  induction tokens as [|tok tokens IH]; [apply appends_ret|].
  cbn [Traced.debug_loop]. apply appends_bind; [|intros _; exact IH].
  unfold Traced.debug_token. destruct (type tok); apply appends_print.
Qed.

Lemma appends_evaluateExpr expr : appends (Traced.evaluateExpr expr).
Proof.
  unfold Traced.evaluateExpr.
  apply appends_bind; [apply appends_lift | intros tokens].
  apply appends_bind; [apply appends_debug | intros _].
  apply appends_bind; [apply appends_lift | intros postfix].
  apply appends_bind; [apply appends_debug | intros _].
  apply appends_evaluatePostfix.
Qed.

End Trace.

(** X15: [evaluateExpr] only appends to [std::cout]: what was written before
    stays, and the outcome and the text appended are the same whatever was
    written before. When the lexer throws, nothing is appended. *)
Theorem trace_is_appended (lib : CxxLib) (expr : string) (out : ostream) :
  Traced.evaluateExpr expr out =
    (Traced.evaluate expr, out ++ snd (Traced.evaluateExpr expr [])) /\
  (forall e, Traced.tokenize expr = Throw e ->
             Traced.evaluateExpr expr out = (Throw e, out)).
Proof.
  split; [apply appends_evaluateExpr|].
  intros e H. unfold Traced.evaluateExpr, bindIO, lift. now rewrite H.
Qed.

Section ApplicationResults.
Context {lib : CxxLib}.

(** The turn of [run] on a line that is neither "exit" nor "help". *)
Lemma run_body_expression line app :
  (line =? "exit")%string = false -> (line =? "help")%string = false ->
  Traced.run_body line app =
    match Traced.evaluateExpr line (cout app) with
    | (Ok v, out) =>
        (Continue,
         mkApp (Calculator.mk line v)
               (out ++ [Text "Answer: "; Dbl v; Text nl]) (cerr app))
    | (Throw (runtime_error what), out) =>
        (Continue,
         mkApp (Calculator.mk line (Calculator.result (calc app))) out
               (cerr app ++ [Text "Error: "; Text what; Text nl]))
    | (Throw e, out) =>
        (Uncaught e,
         mkApp (Calculator.mk line (Calculator.result (calc app))) out (cerr app))
    end.
Proof.
  intros He Hh. unfold Traced.run_body, Traced.getExpr, Traced.inputExpr.
  cbn [Calculator.expr]. rewrite He, Hh.
  unfold Traced.evaluateExpr_member, Traced.displayResult, bindIO.
  cbn [Calculator.expr Calculator.result].
  destruct (Traced.evaluateExpr line (cout app)) as [[v|e] out]; reflexivity.
Qed.





Lemma run_body_uncaught line app e app' :
  Traced.run_body line app = (Uncaught e, app') ->
  Traced.evaluate line = Throw e /\ (forall what, e <> runtime_error what) /\
  cerr app' = cerr app.
Proof.
  destruct (String.eqb_spec line "exit") as [->|Hne]; [discriminate|].
  destruct (String.eqb_spec line "help") as [->|Hnh]; [discriminate|].
  apply String.eqb_neq in Hne, Hnh.
  rewrite run_body_expression by assumption.
  rewrite (appends_evaluateExpr line (cout app)).
  unfold Traced.evaluate.
  destruct (fst (Traced.evaluateExpr line [])) as [v|[w|w]]; try discriminate.
  intros [= <- <-]. repeat split. discriminate.
Qed.

Lemma run_loop_terminated lines : forall app e,
  fst (Traced.run_loop lines app) = Terminated e ->
  exists line, In line lines /\ Traced.evaluate line = Throw e /\
               forall what, e <> runtime_error what.
Proof.
  induction lines as [|line lines IH]; intros app e H; [discriminate|].
  cbn [Traced.run_loop] in H.
  destruct (Traced.run_body line _) as [[| |e'] app'] eqn:Hb.
  - apply IH in H as (l & Hin & Hl). exists l. split; [now right | exact Hl].
  - discriminate.
  - injection H as <-. apply run_body_uncaught in Hb as (Hev & Hne & _).
    exists line. split; [now left | now split].
Qed.

(** A turn looks at the application only to append to its streams. *)
Lemma run_body_console line app1 app2 :
  console app1 = console app2 ->
  fst (Traced.run_body line app1) = fst (Traced.run_body line app2) /\
  console (snd (Traced.run_body line app1)) =
  console (snd (Traced.run_body line app2)).
Proof.
  destruct app1 as [c1 o1 e1], app2 as [c2 o2 e2]. unfold console.
  cbn [cout cerr]. intros [= <- <-].
  destruct (String.eqb_spec line "exit") as [->|Hne]; [now split|].
  destruct (String.eqb_spec line "help") as [->|Hnh]; [now split|].
  apply String.eqb_neq in Hne, Hnh.
  rewrite !run_body_expression by assumption. cbn [cout cerr].
  destruct (Traced.evaluateExpr line o1) as [[v|[w|w]] out]; now split.
Qed.

Lemma run_loop_console lines : forall app1 app2,
  console app1 = console app2 ->
  fst (Traced.run_loop lines app1) = fst (Traced.run_loop lines app2) /\
  console (snd (Traced.run_loop lines app1)) =
  console (snd (Traced.run_loop lines app2)).
Proof.
  induction lines as [|line lines IH]; intros app1 app2 H.
  - cbn. unfold console in *. cbn. injection H as -> ->. now split.
  - cbn [Traced.run_loop].
    assert (Hp : console (write_cout [Text (nl ++ "Enter your expression: ")] app1) =
                 console (write_cout [Text (nl ++ "Enter your expression: ")] app2)).
    { unfold console in *. cbn. injection H as -> ->. reflexivity. }
    destruct (run_body_console line _ _ Hp) as [Hc Hs].
    destruct (Traced.run_body line (write_cout _ app1)) as [ctl1 a1].
    destruct (Traced.run_body line (write_cout _ app2)) as [ctl2 a2].
    cbn [fst snd] in Hc, Hs. subst ctl2.
    destruct ctl1; [now apply IH | now split | now split].
Qed.

(** The clean application does what the traced one does, the trace apart. *)
Lemma run_loop_clean lines : forall app1 app2,
  calc app1 = calc app2 -> cerr app1 = cerr app2 ->
  fst (Traced.run_loop lines app1) = fst (Clean.run_loop lines app2) /\
  calc (snd (Traced.run_loop lines app1)) = calc (snd (Clean.run_loop lines app2)) /\
  cerr (snd (Traced.run_loop lines app1)) = cerr (snd (Clean.run_loop lines app2)).
Proof.
  induction lines as [|line lines IH]; intros app1 app2 Hc He.
  - cbn. now repeat split.
  - cbn [Traced.run_loop Clean.run_loop].
    set (a1 := write_cout _ app1). set (a2 := write_cout _ app2).
    assert (Hc' : calc a1 = calc a2) by exact Hc.
    assert (He' : cerr a1 = cerr a2) by exact He.
    clearbody a1 a2. clear Hc He app1 app2.
    assert (Hb : fst (Traced.run_body line a1) = fst (Clean.run_body line a2) /\
                 calc (snd (Traced.run_body line a1)) =
                 calc (snd (Clean.run_body line a2)) /\
                 cerr (snd (Traced.run_body line a1)) =
                 cerr (snd (Clean.run_body line a2))).
    { destruct (String.eqb_spec line "exit") as [->|Hne].
      { cbn. rewrite Hc', He'. now repeat split. }
      destruct (String.eqb_spec line "help") as [->|Hnh].
      { cbn. rewrite Hc', He'. now repeat split. }
      apply String.eqb_neq in Hne, Hnh.
      rewrite run_body_expression by assumption.
      unfold Clean.run_body, Clean.getExpr, Clean.inputExpr.
      cbn [Calculator.expr]. rewrite Hne, Hnh.
      unfold Clean.evaluateExpr_member, Clean.displayResult, bindIO, lift.
      cbn [Calculator.expr Calculator.result].
      pose proof (evaluateExpr_erase line (cout a1)) as E.
      change (Clean.evaluateExpr line) with
        (tokens <- Traced.tokenize line ;;
         postfix <- Traced.toPostfix tokens ;; Clean.evaluatePostfix postfix).
      rewrite <- E.
      destruct (Traced.evaluateExpr line (cout a1)) as [[v|[w|w]] out];
        cbn [fst snd bind]; rewrite ?Hc', ?He'; now repeat split. }
    destruct (Traced.run_body line a1) as [ctl1 b1].
    destruct (Clean.run_body line a2) as [ctl2 b2].
    cbn [fst snd] in Hb. destruct Hb as (<- & Hcb & Heb).
    destruct ctl1; [now apply IH | now repeat split | now repeat split].
Qed.

End ApplicationResults.


(** X17: an error in an expression never ends [run]. When an exception does
    leave [run], it is no [std::runtime_error], and [std::stod] threw it on
    a number of the line being evaluated. *)
Theorem run_ends_only_on_stod_exception (lib : CxxLib) (lines : list string)
    (c : Calculator.t) (e : exception) :
  fst (Traced.run lines c) = Terminated e ->
  (forall what, e <> runtime_error what) /\
  exists line numStr,
    In line lines /\ Traced.evaluate line = Throw e /\ stod numStr = Throw e.
Proof.
  unfold Traced.run. cbn [Traced.greet print]. intros H.
  apply run_loop_terminated in H as (line & Hin & Hev & Hne).
  split; [exact Hne|].
  destruct (evaluate_throws lib line e Hev) as [H|[[ch H]|[numStr H]]].
  - exfalso. cbn [In] in H.
    repeat (destruct H as [H|H]; [now apply (Hne _ (eq_sym H))|]).
    contradiction.
  - exfalso. now apply (Hne _ H).
  - now exists line, numStr.
Qed.

Lemma run_ends_only_on_stod_exception_witness :
  fst (@Traced.run ref_lib ["1+1"; overflowing; "3"] (Calculator.mk "" 0)) =
    Terminated (out_of_range "stod") /\
  exists line numStr,
    In line ["1+1"; overflowing; "3"] /\
    @Traced.evaluate ref_lib line = Throw (out_of_range "stod") /\
    @stod ref_lib numStr = Throw (out_of_range "stod").
Proof.
  split; [vm_compute; reflexivity|].
  exact (proj2 (run_ends_only_on_stod_exception ref_lib
                  ["1+1"; overflowing; "3"] (Calculator.mk "" 0)
                  (out_of_range "stod") ltac:(vm_compute; reflexivity))).
Defined.

(** X18: the handler of [run] does not catch what [std::stod] throws. On a
    line that is a literal on which [std::stod] throws [std::out_of_range],
    the exception leaves [run]: nothing is written on [std::cerr] and the
    lines after it are not read. *)
Theorem out_of_range_leaves_run (lib : CxxLib) (a what : string)
    (lines : list string) (app : App) :
  is_literal a = true -> stod a = Throw (out_of_range what) ->
  fst (Traced.run_loop (a :: lines) app) = Terminated (out_of_range what) /\
  cerr (snd (Traced.run_loop (a :: lines) app)) = cerr app /\
  Traced.run_loop (a :: lines) app = Traced.run_loop [a] app.
Proof.
  intros Ha Hx.
  assert (Hlex : Traced.tokenize a = Throw (out_of_range what)).
  { rewrite tokenize_from_start.
    destruct (is_literal_parts a Ha) as (Hall & Hbeg & Hd).
    pose proof (tokenize_from_number a "" 0 [] Hall Hbeg eq_refl) as E.
    rewrite append_empty_r, Hd, Hx in E. exact E. }
  assert (He : (a =? "exit")%string = false).
  { destruct (String.eqb_spec a "exit") as [->|]; [discriminate | reflexivity]. }
  assert (Hh : (a =? "help")%string = false).
  { destruct (String.eqb_spec a "help") as [->|]; [discriminate | reflexivity]. }
  cbn [Traced.run_loop]. rewrite (run_body_expression a _ He Hh).
  unfold Traced.evaluateExpr, bindIO, lift. rewrite Hlex.
  now repeat split.
Qed.

Lemma out_of_range_leaves_run_witness :
  (is_literal overflowing = true /\
   @stod ref_lib overflowing = Throw (out_of_range "stod")) /\
  fst (@Traced.run_loop ref_lib [overflowing; "1+1"]
         (mkApp (Calculator.mk "" 0) [] [])) = Terminated (out_of_range "stod").
Proof.
  split; [split; vm_compute; reflexivity|].
  exact (proj1 (out_of_range_leaves_run ref_lib overflowing "stod" ["1+1"]
                  (mkApp (Calculator.mk "" 0) [] [])
                  ltac:(vm_compute; reflexivity) ltac:(vm_compute; reflexivity))).
Defined.

(** X19: the member [result], which has no initialiser, is never shown
    before it is assigned: what [run] writes on [std::cout] and [std::cerr]
    and how it ends depend on the lines only, not on the calculator it
    starts with. *)
Theorem run_ignores_initial_calculator (lib : CxxLib) (lines : list string)
    (c1 c2 : Calculator.t) :
  fst (Traced.run lines c1) = fst (Traced.run lines c2) /\
  console (snd (Traced.run lines c1)) = console (snd (Traced.run lines c2)).
Proof.
  unfold Traced.run. cbn [Traced.greet print].
  now apply run_loop_console.
Qed.

(** X20: over every session the application of src/clean/main.cpp ends as
    the one of src/main.cpp does, leaves the same calculator, and writes the
    same messages on [std::cerr]. *)
Theorem clean_application_agrees (lib : CxxLib) (lines : list string)
    (c : Calculator.t) :
  fst (Traced.run lines c) = fst (Clean.run lines c) /\
  calc (snd (Traced.run lines c)) = calc (snd (Clean.run lines c)) /\
  cerr (snd (Traced.run lines c)) = cerr (snd (Clean.run lines c)).
Proof.
  unfold Traced.run, Clean.run. cbn [Traced.greet Clean.greet print].
  now apply run_loop_clean.
Qed.
